(** * TextToMidi: the note resolver and the score compiler of [main.py]

    A shallow embedding of [normalize_note_name], [note_to_midi] and
    [parse_text_to_midi], with the Python built-ins they call
    ([str.strip], [str.upper], [str.split], [str.splitlines], [re.match],
    [float], [int]) written out for text made of ASCII characters.

    Exceptions are values of [exn]; a Python call that may raise returns
    a [result].  Floats are IEEE 754 binary64 numbers ([spec_float] with
    precision 53 and maximal exponent 1024).  The MIDI library is outside
    the repository: its [Message(...)] is a constructor of event records
    that raises [ValueError] for a data byte outside 0..127, a track is the
    list of events appended to it, [MidiFile()] has the library's default
    resolution, and its [save] raises [ValueError] at a negative
    delta-time.  The interpreter's limit on the number of digits of
    an integer literal is not modelled. *)

From Stdlib Require Import ZArith Ascii String List Bool Lia.
From Stdlib Require Import Floats.SpecFloat.
From stdpp Require Import base option list strings gmap.

Local Open Scope Z_scope.

(** ** Exceptions and results *)

(** A Python [str]; [pystr "C4"] is the literal. *)
Abbreviation str := (list ascii).
Abbreviation pystr := list_ascii_of_string (only parsing).

Inductive exn : Type :=
| ValueError (msg : str)
| KeyError (key : str)
| TypeError (msg : str)
| OverflowError (msg : str)
| ZeroDivisionError (msg : str).

Inductive result (A : Type) : Type :=
| Ok (a : A)
| Raise (e : exn).
Arguments Ok {A} a.
Arguments Raise {A} e.

#[global] Instance result_ret : MRet result := fun A a => Ok a.

#[global] Instance result_bind : MBind result := fun A B k r =>
  match r with
  | Ok a => k a
  | Raise e => Raise e
  end.

(** ** Python strings, characters below 128 *)

Module Py.

Definition code (c : ascii) : N := N_of_ascii c.

Definition between (lo hi : N) (c : ascii) : bool :=
  ((lo <=? code c) && (code c <=? hi))%N.

(** [str.isspace] on one character: TAB, LF, VT, FF, CR, FS, GS, RS, US
    and the space. *)
Definition isspace (c : ascii) : bool := between 9 13 c || between 28 32 c.

Definition isdigit (c : ascii) : bool := between 48 57 c.

Definition islower (c : ascii) : bool := between 97 122 c.

Definition upper_char (c : ascii) : ascii :=
  if islower c then ascii_of_N (code c - 32) else c.

Definition lower_char (c : ascii) : ascii :=
  if between 65 90 c then ascii_of_N (code c + 32) else c.

Definition upper (s : str) : str := upper_char <$> s.
Definition lower (s : str) : str := lower_char <$> s.

Fixpoint lstrip (s : str) : str :=
  match s with
  | c :: s' => if isspace c then lstrip s' else s
  | [] => []
  end.

Definition rstrip (s : str) : str := reverse (lstrip (reverse s)).

Definition strip (s : str) : str := rstrip (lstrip s).

(** The whitespace [int] and [float] skip around the literal of an ASCII
    string: TAB, LF, VT, FF, CR and the space, without FS, GS, RS and US. *)
Definition isspace_c (c : ascii) : bool := between 9 13 c || between 32 32 c.

Fixpoint lstrip_c (s : str) : str :=
  match s with
  | c :: s' => if isspace_c c then lstrip_c s' else s
  | [] => []
  end.

Definition strip_c (s : str) : str := reverse (lstrip_c (reverse (lstrip_c s))).

(** Cut at every character satisfying [p]; empty pieces are kept, as in
    [str.split(sep)]. *)
Fixpoint split_by (p : ascii -> bool) (s : str) : list str :=
  match s with
  | [] => [[]]
  | c :: s' =>
      if p c then [] :: split_by p s'
      else match split_by p s' with
           | w :: ws => (c :: w) :: ws
           | [] => [[c]]
           end
  end.

Definition nonempty (s : str) : bool :=
  match s with [] => false | _ => true end.

(** [s.split()]: runs of whitespace separate the fields, and no field is
    empty. *)
Definition split (s : str) : list str :=
  List.filter nonempty (split_by isspace s).

(** [s.split(',')] *)
Definition split_comma (s : str) : list str :=
  split_by (Ascii.eqb ","%char) s.

(** Line boundaries of [str.splitlines]: LF, VT, FF, CR, FS, GS, RS. *)
Definition islinebreak (c : ascii) : bool := between 10 13 c || between 28 30 c.

Definition is_cr (c : ascii) : bool := (code c =? 13)%N.
Definition is_lf (c : ascii) : bool := (code c =? 10)%N.

(** [s.splitlines()]: CR LF is one boundary, and a boundary at the very
    end opens no further line. *)
Fixpoint splitlines (s : str) : list str :=
  match s with
  | [] => []
  | c :: s' =>
      let rest := splitlines s' in
      if is_cr c && match s' with d :: _ => is_lf d | [] => false end
      then rest
      else if islinebreak c then [] :: rest
      else match rest with
           | w :: ws => (c :: w) :: ws
           | [] => [[c]]
           end
  end.

Definition digit_value (c : ascii) : Z := Z.of_N (code c - 48).

(** Value of a run of decimal digits, most significant first. *)
Definition digits_value (ds : str) : Z :=
  fold_left (fun acc c => 10 * acc + digit_value c) ds 0.

Definition hex_digit (n : N) : ascii :=
  ascii_of_N (if (n <? 10)%N then 48 + n else 87 + n).

(** One character of [repr(s)] between the quotes [quote]. *)
Definition repr_char (quote c : ascii) : str :=
  if Ascii.eqb c quote || Ascii.eqb c "\" then ["\"%char; c]
  else if Ascii.eqb c "009" then pystr "\t"
  else if Ascii.eqb c "010" then pystr "\n"
  else if Ascii.eqb c "013" then pystr "\r"
  else if (code c <? 32)%N || (code c =? 127)%N
  then "\"%char :: "x"%char :: [hex_digit (code c / 16); hex_digit (code c mod 16)]
  else [c].

(** [repr(s)]: double quotes when the string has a single quote and no
    double quote, single quotes otherwise. *)
Definition repr (s : str) : str :=
  let quote : ascii :=
    if existsb (Ascii.eqb "'") s && negb (existsb (Ascii.eqb "034") s)
    then "034"%char else "'"%char in
  quote :: concat (repr_char quote <$> s) ++ [quote].

(** Underscores of a numeric literal: one may stand only between two
    digits.  The literal without them, or [None]. *)
Fixpoint strip_underscores (prev : ascii) (s : str) : option str :=
  match s with
  | [] => if Ascii.eqb prev "_" then None else Some []
  | c :: s' =>
      if Ascii.eqb c "_" then
        if isdigit prev then strip_underscores c s' else None
      else if Ascii.eqb prev "_" && negb (isdigit c) then None
      else cons c <$> strip_underscores c s'
  end.

Definition split_sign (s : str) : bool * str :=
  match s with
  | c :: s' =>
      if Ascii.eqb c "-" then (true, s')
      else if Ascii.eqb c "+" then (false, s')
      else (false, s)
  | [] => (false, [])
  end.

Definition all_digits (s : str) : bool := nonempty s && forallb isdigit s.

(** [int(s)] for a string [s], base 10. *)
Definition int_of_str (s : str) : result Z :=
  let bad :=
    Raise (ValueError
             (pystr "invalid literal for int() with base 10: " ++ take 200 (repr s))) in
  match strip_underscores "000" (strip_c s) with
  | None => bad
  | Some t =>
      let '(neg, ds) := split_sign t in
      if all_digits ds
      then Ok (if neg then - digits_value ds else digits_value ds)
      else bad
  end.

(** *** Floats *)

Definition float : Type := spec_float.

Definition prec : Z := 53.
Definition emax : Z := 1024.

(** The binary64 number nearest to [m * 2^e], ties to even. *)
Definition round_to_float (m e : Z) : float := binary_normalize prec emax m e false.

(** The binary64 number nearest to [m * 10^e10] for [m > 0]: for a
    negative exponent the quotient is taken with 60 bits or more and
    one more bit that records a non-zero remainder. *)
Definition float_of_decimal (neg : bool) (m e10 : Z) : float :=
  let sgn (z : Z) := if neg then - z else z in
  if m =? 0 then S754_zero neg
  else if 0 <=? e10 then round_to_float (sgn (m * 10 ^ e10)) 0
  else
    let d := 10 ^ (- e10) in
    let k := Z.max 0 (Z.log2 d + 60 - Z.log2 m) in
    let n := m * 2 ^ k in
    let sticky := if n mod d =? 0 then 0 else 1 in
    round_to_float (sgn (2 * (n / d) + sticky)) (- k - 1).

Fixpoint span_digits (s : str) : str * str :=
  match s with
  | c :: s' =>
      if isdigit c then let '(ds, r) := span_digits s' in (c :: ds, r)
      else ([], s)
  | [] => ([], [])
  end.

(** The exponent part of a float literal: nothing, or [e] or [E], an
    optional sign, and digits. *)
Definition exponent_of (s : str) : option Z :=
  match s with
  | [] => Some 0
  | c :: s' =>
      if Ascii.eqb (lower_char c) "e" then
        let '(neg, ds) := split_sign s' in
        if all_digits ds
        then Some (if neg then - digits_value ds else digits_value ds)
        else None
      else None
  end.

(** [float(s)] for a string [s]. *)
Definition float_of_str (s : str) : result float :=
  let bad := Raise (ValueError (pystr "could not convert string to float: " ++ repr s)) in
  match strip_underscores "000" (strip_c s) with
  | None => bad
  | Some t =>
      let '(neg, body) := split_sign t in
      let word := lower body in
      if bool_decide (word = pystr "inf") || bool_decide (word = pystr "infinity")
      then Ok (S754_infinity neg)
      else if bool_decide (word = pystr "nan") then Ok S754_nan
      else
        let '(ipart, r1) := span_digits body in
        let '(fpart, r2) :=
          match r1 with
          | c :: r => if Ascii.eqb c "." then span_digits r else ([], r1)
          | [] => ([], [])
          end in
        if nonempty (ipart ++ fpart) then
          match exponent_of r2 with
          | Some e =>
              Ok (float_of_decimal neg (digits_value (ipart ++ fpart))
                    (e - Z.of_nat (length fpart)))
          | None => bad
          end
        else bad
  end.

(** [float(n)] for an integer [n], as in [n * x] with a float [x]. *)
Definition float_of_int (n : Z) : result float :=
  match round_to_float n 0 with
  | S754_infinity _ => Raise (OverflowError (pystr "int too large to convert to float"))
  | x => Ok x
  end.

Definition float_mul (x y : float) : float := SFmul prec emax x y.

(** [int(x)] for a float [x]: the fraction is dropped. *)
Definition int_of_float (x : float) : result Z :=
  match x with
  | S754_zero _ => Ok 0
  | S754_finite s m e =>
      let a := if 0 <=? e then Z.pos m * 2 ^ e else Z.pos m / 2 ^ (- e) in
      Ok (if s then - a else a)
  | S754_infinity _ =>
      Raise (OverflowError (pystr "cannot convert float infinity to integer"))
  | S754_nan => Raise (ValueError (pystr "cannot convert float NaN to integer"))
  end.

(** [round(x)] for a float [x]: the nearest integer, ties to even. *)
Definition round_of_float (x : float) : result Z :=
  match x with
  | S754_zero _ => Ok 0
  | S754_finite s m e =>
      let a :=
        if 0 <=? e then Z.pos m * 2 ^ e
        else
          let d := 2 ^ (- e) in
          let q := Z.pos m / d in
          let r := Z.pos m mod d in
          match 2 * r ?= d with
          | Lt => q
          | Gt => q + 1
          | Eq => if Z.even q then q else q + 1
          end in
      Ok (if s then - a else a)
  | S754_infinity _ =>
      Raise (OverflowError (pystr "cannot convert float infinity to integer"))
  | S754_nan => Raise (ValueError (pystr "cannot convert float NaN to integer"))
  end.

End Py.

(** ** The note resolver *)

(** Map sharps only; flats are converted to sharps. *)
Definition note_map : gmap str Z :=
  list_to_map
    [(pystr "C", 0); (pystr "C#", 1); (pystr "D", 2); (pystr "D#", 3);
     (pystr "E", 4); (pystr "F", 5); (pystr "F#", 6); (pystr "G", 7);
     (pystr "G#", 8); (pystr "A", 9); (pystr "A#", 10); (pystr "B", 11)].

Definition flat_to_sharp : gmap str str :=
  list_to_map
    [(pystr "A", pystr "G#"); (pystr "B", pystr "A#"); (pystr "C", pystr "B");
     (pystr "D", pystr "C#"); (pystr "E", pystr "D#"); (pystr "F", pystr "E");
     (pystr "G", pystr "F#")].

Module Re.

(** [[A-G]] *)
Definition is_pitch_letter (c : ascii) : bool := Py.between 65 71 c.

(** [[#B]] *)
Definition is_accidental (c : ascii) : bool := Ascii.eqb c "#" || Ascii.eqb c "B".

(** [$]: the end of the string, or just before a line feed that ends it. *)
Definition at_end (s : str) : bool :=
  match s with
  | [] => true
  | [c] => Py.is_lf c
  | _ => false
  end.

(** [(\d)$] *)
Definition match_octave (s : str) : option str :=
  match s with
  | d :: s' => if Py.isdigit d && at_end s' then Some [d] else None
  | [] => None
  end.

(** [re.match(r"^([A-G])([#B]?)(\d)$", note)]: the three groups.  The
    accidental is tried first with one character, then empty. *)
Definition match_note (note : str) : option (str * str * str) :=
  match note with
  | p :: s1 =>
      if is_pitch_letter p then
        let with_accidental :=
          match s1 with
          | a :: s2 =>
              if is_accidental a then o ← match_octave s2; Some ([a], o) else None
          | [] => None
          end in
        match with_accidental with
        | Some (a, o) => Some ([p], a, o)
        | None => o ← match_octave s1; Some ([p], [], o)
        end
      else None
  | [] => None
  end.

End Re.

Definition invalid_note_format (note : str) : exn :=
  ValueError (pystr "Invalid note format: '" ++ note ++ pystr "'").

Definition invalid_after_normalization (full_pitch : str) : exn :=
  ValueError (pystr "Note '" ++ full_pitch ++ pystr "' is not valid after normalization").

(** Convert flats (e.g. Bb) to sharps (A#) and return pitch and octave;
    a rest is [('R', None)]. *)
Definition normalize_note_name (note : str) : result (str * option Z) :=
  let note := Py.upper (Py.strip note) in
  if bool_decide (note ∈ [pystr "R"; pystr "REST"]) then Ok (pystr "R", None)
  else
    match Re.match_note note with
    | None => Raise (invalid_note_format note)
    | Some (pitch, accidental, octave_str) =>
        let '(pitch, accidental) :=
          if bool_decide (accidental = pystr "B")
          then (default pitch (flat_to_sharp !! pitch), pystr "")
          else (pitch, accidental) in
        let full_pitch := pitch ++ accidental in
        octave ← Py.int_of_str octave_str;
        if bool_decide (is_Some (note_map !! full_pitch))
        then Ok (full_pitch, Some octave)
        else Raise (invalid_after_normalization full_pitch)
    end.

(** [note_map[pitch]] *)
Definition note_map_get (pitch : str) : result Z :=
  match note_map !! pitch with
  | Some v => Ok v
  | None => Raise (KeyError pitch)
  end.

Definition note_to_midi (note : str) : result (option Z) :=
  if bool_decide (note = pystr "R") then Ok None
  else
    '(pitch, octave) ← normalize_note_name note;
    offset ← note_map_get pitch;
    match octave with
    | Some octave => Ok (Some (12 + offset + 12 * octave))
    | None => Raise (TypeError (pystr "unsupported operand type(s) for *: 'int' and 'NoneType'"))
    end.

(** ** The MIDI library *)

(** The elements of a track: the channel messages the compiler builds, and
    the tempo meta message of the library. *)
Inductive Message : Type :=
| program_change (program time : Z)
| note_on (note velocity time : Z)
| note_off (note velocity time : Z)
| set_tempo (tempo time : Z).

Definition MidiTrack : Type := list Message.

(** A data byte of a message: a note, a velocity or a program. *)
Definition data_byte (value : Z) : bool := (0 <=? value) && (value <=? 127).

(** The check [Message(...)] makes on each data byte. *)
Definition check_data_byte (value : Z) : result unit :=
  if data_byte value then Ok tt
  else Raise (ValueError (pystr "data byte must be in range 0..127")).

(** [Message('program_change', program=..., time=...)] *)
Definition new_program_change (program time : Z) : result Message :=
  _ ← check_data_byte program;
  Ok (program_change program time).

(** [Message('note_on', note=..., velocity=..., time=...)] *)
Definition new_note_on (note velocity time : Z) : result Message :=
  _ ← check_data_byte note;
  _ ← check_data_byte velocity;
  Ok (note_on note velocity time).

(** [Message('note_off', note=..., velocity=..., time=...)] *)
Definition new_note_off (note velocity time : Z) : result Message :=
  _ ← check_data_byte note;
  _ ← check_data_byte velocity;
  Ok (note_off note velocity time).

Record MidiFile : Type := mkMidiFile {
  ticks_per_beat : Z;
  tracks : list MidiTrack
}.

(** Modelled from the spec: the resolution of a new [MidiFile()], a constant
    of the MIDI library, which is 480 ticks per beat. *)
Definition DEFAULT_TICKS_PER_BEAT : Z := 480.

(** The nearest integer to [n / d], ties to even. *)
Definition div_round_half_even (n d : Z) : Z :=
  let q := n / d in
  let r := n mod d in
  match 2 * Z.abs r ?= Z.abs d with
  | Lt => q
  | Gt => q + 1
  | Eq => if Z.even q then q else q + 1
  end.

(** Modelled from the spec: the library's [bpm2tempo], the standard
    conversion of beats per minute to microseconds per beat, 60000000 / bpm
    to the nearest integer; the division fails at zero. *)
Definition bpm2tempo (bpm : Z) : result Z :=
  if bpm =? 0 then Raise (ZeroDivisionError (pystr "float division by zero"))
  else Ok (div_round_half_even 60000000 bpm).

(** ** The score compiler *)

(** The loop over the tokens of a chord: a token whose resolution raises
    [ValueError] gives no key, and so does a rest. *)
Fixpoint resolve_notes (notes : list str) (midi_notes : list Z) : result (list Z) :=
  match notes with
  | [] => Ok midi_notes
  | n :: notes' =>
      match note_to_midi n with
      | Ok (Some midi_note) => resolve_notes notes' (midi_notes ++ [midi_note])
      | Ok None => resolve_notes notes' midi_notes
      | Raise (ValueError _) => resolve_notes notes' midi_notes
      | Raise e => Raise e
      end
  end.

(** The loop that builds the key-down events of a chord. *)
Fixpoint note_ons (midi_notes : list Z) (velocity : Z) : result (list Message) :=
  match midi_notes with
  | [] => Ok []
  | midi_note :: midi_notes' =>
      on ← new_note_on midi_note velocity 0;
      ons ← note_ons midi_notes' velocity;
      Ok (on :: ons)
  end.

(** The loop that builds the key-up events, from the index [i] on. *)
Fixpoint note_offs (i : nat) (midi_notes : list Z) (velocity duration_ticks : Z)
  : result (list Message) :=
  match midi_notes with
  | [] => Ok []
  | midi_note :: midi_notes' =>
      let off_time := if bool_decide (i = 0%nat) then duration_ticks else 0 in
      off ← new_note_off midi_note velocity off_time;
      offs ← note_offs (S i) midi_notes' velocity duration_ticks;
      Ok (off :: offs)
  end.

(** The events of a line, once its keys are known: the delay of a rest, or
    the key-down events and then the key-up events. *)
Definition chord_events (midi_notes : list Z) (velocity duration_ticks : Z)
  : result (list Message) :=
  match midi_notes with
  | [] =>
      off ← new_note_off 0 0 duration_ticks;
      Ok [off]
  | _ =>
      ons ← note_ons midi_notes velocity;
      offs ← note_offs 0 midi_notes velocity duration_ticks;
      Ok (ons ++ offs)
  end.

(** [int(ticks_per_beat * duration)] *)
Definition duration_ticks (ticks_per_beat : Z) (duration : Py.float) : result Z :=
  tpb ← Py.float_of_int ticks_per_beat;
  Py.int_of_float (Py.float_mul tpb duration).

(** [int(parts[2]) if len(parts) > 2 else 64], on the fields after the
    first two. *)
Definition velocity_of (rest : list str) : result Z :=
  match rest with
  | velocity_str :: _ => Py.int_of_str velocity_str
  | [] => Ok 64
  end.

(** One turn of the loop over the lines: the events appended to the track. *)
Definition line_events (ticks_per_beat : Z) (line : str) : result (list Message) :=
  if negb (Py.nonempty (Py.strip line)) then Ok []
  else
    match Py.split (Py.strip line) with
    | notes_part :: duration_str :: rest =>
        match Py.float_of_str duration_str with
        | Raise (ValueError _) => Ok []
        | Raise e => Raise e
        | Ok duration =>
            velocity ← velocity_of rest;
            let notes := Py.strip <$> Py.split_comma notes_part in
            duration_ticks ← duration_ticks ticks_per_beat duration;
            midi_notes ← resolve_notes notes [];
            chord_events midi_notes velocity duration_ticks
        end
    | _ => Ok []
    end.

Fixpoint compile_lines (ticks_per_beat : Z) (lines : list str) (track : MidiTrack)
  : result MidiTrack :=
  match lines with
  | [] => Ok track
  | line :: lines' =>
      events ← line_events ticks_per_beat line;
      compile_lines ticks_per_beat lines' (track ++ events)
  end.

Definition parse_text_to_midi (text : str) (bpm : Z) : result MidiFile :=
  let midi := mkMidiFile DEFAULT_TICKS_PER_BEAT [] in
  tempo ← bpm2tempo bpm;
  first ← new_program_change 0 0;
  let track := [first] in
  track ← compile_lines (ticks_per_beat midi) (Py.splitlines (Py.strip text)) track;
  Ok (mkMidiFile (ticks_per_beat midi) (tracks midi ++ [track])).

(** The default tempo of [parse_text_to_midi]. *)
Definition DEFAULT_BPM : Z := 90.

(** ** Notions used in the statements *)

(** The events of a chord when every data byte passes the check. *)
Definition chord_messages (midi_notes : list Z) (velocity duration_ticks : Z)
  : list Message :=
  match midi_notes with
  | [] => [note_off 0 0 duration_ticks]
  | _ =>
      ((fun midi_note => note_on midi_note velocity 0) <$> midi_notes) ++
      imap (fun i midi_note =>
              note_off midi_note velocity (if bool_decide (i = 0%nat) then duration_ticks else 0))
           midi_notes
  end.

(** The data bytes of a chord pass the check: a rest has none to check,
    since its event has key 0 and velocity 0. *)
Definition chord_ok (midi_notes : list Z) (velocity : Z) : bool :=
  match midi_notes with
  | [] => true
  | _ => forallb data_byte midi_notes && data_byte velocity
  end.

(** A tempo that is not zero and that converts to a float.  The library
    divides a float by the tempo: beyond the range of floats the conversion
    of the integer raises [OverflowError], which [bpm2tempo] above leaves
    out. *)
Definition tempo_in_range (bpm : Z) : Prop :=
  bpm ≠ 0 ∧ Z.abs bpm < 2 ^ 1023.

(** The grammar of a pitched token, after trimming and uppercasing: one
    letter A-G, at most one accidental, one digit. *)
Definition pitched_grammar (t : str) : Prop :=
  ∃ (p : ascii) (acc : str) (d : ascii),
    t = p :: acc ++ [d] ∧
    Re.is_pitch_letter p = true ∧
    acc ∈ [pystr ""; pystr "#"; pystr "B"] ∧
    Py.isdigit d = true.

(** A token the resolver takes for a rest. *)
Definition is_rest_spelling (note : str) : Prop :=
  Py.upper (Py.strip note) ∈ [pystr "R"; pystr "REST"].

#[local] Instance is_rest_spelling_dec note : Decision (is_rest_spelling note).
Proof. unfold is_rest_spelling. apply _. Defined.

(** The enharmonic table of the specification: the letter of a flat and
    the sharp spelling it collapses to. *)
Definition flat_table : list (ascii * str) :=
  [("A"%char, pystr "G#"); ("B"%char, pystr "A#"); ("C"%char, pystr "B");
   ("D"%char, pystr "C#"); ("E"%char, pystr "D#"); ("F"%char, pystr "E");
   ("G"%char, pystr "F#")].

(** A rest spelled otherwise than the exact string [R], the one string for
    which [note_to_midi] returns [None] before it calls the resolver. *)
Definition rest_misspelt (note : str) : Prop :=
  note ≠ pystr "R" ∧ is_rest_spelling note.

#[local] Instance rest_misspelt_dec note : Decision (rest_misspelt note).
Proof. unfold rest_misspelt. apply _. Defined.

(** The tempo meta message. *)
Definition is_set_tempo (m : Message) : bool :=
  match m with set_tempo _ _ => true | _ => false end.

(** The delta-time of an event. *)
Definition time_of (m : Message) : Z :=
  match m with
  | program_change _ t | note_on _ _ t | note_off _ _ t | set_tempo _ t => t
  end.

(** The time a run of events advances the track by. *)
Definition total_time (events : list Message) : Z :=
  foldr (fun m acc => time_of m + acc) 0 events.

(** [math.isfinite] *)
Definition is_finite (x : Py.float) : bool :=
  match x with
  | S754_zero _ | S754_finite _ _ _ => true
  | S754_infinity _ | S754_nan => false
  end.

(** The key a token contributes to its chord, if any. *)
Definition key_of (token : str) : option Z :=
  match note_to_midi token with
  | Ok (Some key) => Some key
  | _ => None
  end.

(** A line that is skipped, or whose fields cannot make the compiler
    raise: the velocity field, if any, is an integer literal, the product
    of the resolution and the duration is finite, no token is a rest
    spelled otherwise than [R], and when the chord has a key, its keys and
    the velocity are data bytes. *)
Definition line_clean (line : str) : bool :=
  match Py.split (Py.strip line) with
  | notes_part :: duration_str :: rest =>
      match Py.float_of_str duration_str with
      | Ok duration =>
          let notes := Py.strip <$> Py.split_comma notes_part in
          match velocity_of rest with
          | Ok velocity => chord_ok (omap key_of notes) velocity
          | Raise _ => false
          end &&
          is_finite (Py.float_mul (Py.round_to_float DEFAULT_TICKS_PER_BEAT 0) duration) &&
          forallb (fun n => negb (bool_decide (rest_misspelt n))) notes
      | Raise _ => true
      end
  | _ => true
  end.

(** Five lines: a chord with two tokens that do not resolve, a line of one
    field, a line whose duration is no float, a blank line, a rest. *)
Definition score_example : str :=
  pystr "C4,H4,x 1.0" ++ "010"%char :: pystr "only" ++ "010"%char ::
  pystr "C4 fast" ++ "010"%char :: "010"%char :: pystr "R 0.5 80".

(** A finite float as a fraction [n / den] with [den] a power of two. *)
Definition as_fraction (x : Py.float) : option (Z * Z) :=
  match x with
  | S754_zero _ => Some (0, 1)
  | S754_finite s m e =>
      let n := if s then Z.neg m else Z.pos m in
      Some (if 0 <=? e then (n * 2 ^ e, 1) else (n, 2 ^ (- e)))
  | S754_infinity _ | S754_nan => None
  end.

(** The tick count that rounding to the nearest tick would give. *)
Definition rounded_ticks (ticks_per_beat : Z) (duration : Py.float) : result Z :=
  tpb ← Py.float_of_int ticks_per_beat;
  Py.round_of_float (Py.float_mul tpb duration).

(** ** Notions used in the further properties *)

(** [str(n)] for a number [n] of one decimal digit. *)
Definition digit_char (n : Z) : ascii := ascii_of_N (48 + Z.to_N n).

(** The entries of [note_map], as the source lists them. *)
Definition note_table : list (str * Z) :=
  [(pystr "C", 0); (pystr "C#", 1); (pystr "D", 2); (pystr "D#", 3);
   (pystr "E", 4); (pystr "F", 5); (pystr "F#", 6); (pystr "G", 7);
   (pystr "G#", 8); (pystr "A", 9); (pystr "A#", 10); (pystr "B", 11)].

(** The sign of a float, [math.copysign(1, x) < 0]; false for NaN. *)
Definition sign_bit (x : Py.float) : bool :=
  match x with
  | S754_zero s | S754_infinity s | S754_finite s _ _ => s
  | S754_nan => false
  end.

(** A key-up releases the oldest sounding instance of its key, if there
    is one. *)
Fixpoint release (key : Z) (sounding : list Z) : option (list Z) :=
  match sounding with
  | [] => None
  | k :: sounding' =>
      if key =? k then Some sounding' else cons k <$> release key sounding'
  end.

(** The keys that sound after a run of events, from the keys [sounding]
    before it: a key-down adds its key, a key-up must release a key that
    sounds, and the key-up of key 0, which stands for a rest, passes.
    [None] when a key-up finds its key silent. *)
Fixpoint play (events : list Message) (sounding : list Z) : option (list Z) :=
  match events with
  | [] => Some sounding
  | note_on key _ _ :: events' => play events' (sounding ++ [key])
  | note_off key _ _ :: events' =>
      if key =? 0 then play events' sounding
      else sounding' ← release key sounding; play events' sounding'
  | _ :: events' => play events' sounding
  end.

(** The events a compile puts on a track: the program change, key-down
    events with delta-time 0, key-up events, and the event of a rest. *)
Definition compiled_event (m : Message) : Prop :=
  match m with
  | program_change program time => program = 0 ∧ time = 0
  | note_on key velocity time =>
      12 <= key <= 127 ∧ 0 <= velocity <= 127 ∧ time = 0
  | note_off key velocity _ =>
      (key = 0 ∧ velocity = 0) ∨ (12 <= key <= 127 ∧ 0 <= velocity <= 127)
  | set_tempo _ _ => False
  end.

(** ** The export of the window *)

(** [str(e)] for an exception: its message, and for a [KeyError] the
    [repr] of the key. *)
Definition str_of_exn (e : exn) : str :=
  match e with
  | KeyError key => Py.repr key
  | ValueError msg | TypeError msg | OverflowError msg | ZeroDivisionError msg => msg
  end.

(** What [export_midi] does to the world: a warning box, a file saved
    with [midi.save(filename)], a save that raises out of the method, or
    nothing. *)
Inductive ExportOutcome : Type :=
| Warning (title message : str)
| Saved (filename : str) (midi : MidiFile)
| SaveRaised (filename : str)
| NotSaved.

(** The library writes a track only when no delta-time is negative;
    otherwise [midi.save] raises [ValueError]. *)
Definition times_writable (midi : MidiFile) : bool :=
  forallb (forallb (fun m => 0 <=? time_of m)) (tracks midi).

(** The tempo [export_midi] reads from the tempo field: [int] of its
    text, and 90 when [int] raises. *)
Definition tempo_of_field (bpm_text : str) : Z :=
  match Py.int_of_str bpm_text with
  | Ok bpm => bpm
  | Raise _ => 90
  end.

(** [MidiMaker.export_midi], as a function of the text of the editor, the
    text of the tempo field and the file name the save dialog returns (the
    empty string when it is dismissed).  The dialog is only opened when the
    compile has returned, and the save is outside the [try]. *)
Definition export_midi (text bpm_text filename : str) : ExportOutcome :=
  let bpm := tempo_of_field bpm_text in
  match parse_text_to_midi text bpm with
  | Raise e =>
      Warning (pystr "Error")
              (pystr "Failed to parse input:" ++ "010"%char :: str_of_exn e)
  | Ok midi =>
      if Py.nonempty filename then
        if times_writable midi then Saved filename midi else SaveRaised filename
      else NotSaved
  end.

(** * Properties *)

Ltac ascii_cases c H :=
  destruct c as [[] [] [] [] [] [] [] []];
  try (vm_compute in H; discriminate H).

Ltac table_cases H :=
  apply list_elem_of_In in H; simpl in H;
  repeat (destruct H as [H | H]; [injection H as <- <-|]); [..|destruct H].

Ltac list_cases H :=
  apply list_elem_of_In in H; simpl in H;
  repeat (destruct H as [<- | H]); [..|destruct H].

Lemma bind_Ok {A B : Type} (a : A) (k : A -> result B) : mbind k (Ok a) = k a.
Proof. reflexivity. Qed.

Lemma bind_Raise {A B : Type} (e : exn) (k : A -> result B) :
  mbind k (Raise e) = Raise e.
Proof. reflexivity. Qed.

(** ** The built-ins on some inputs *)

Lemma str_examples :
  Py.strip (pystr "  C4 1.0 ") = pystr "C4 1.0" ∧
  Py.upper (pystr "c#4 Bb") = pystr "C#4 BB" ∧
  Py.split (pystr " C4,E4   2.0" ++ "009"%char :: pystr "100 ") =
    [pystr "C4,E4"; pystr "2.0"; pystr "100"] ∧
  Py.split (pystr "   ") = [] ∧
  Py.split_comma (pystr "C4,,E4 ") = [pystr "C4"; pystr ""; pystr "E4 "] ∧
  Py.splitlines (pystr "a" ++ "013"%char :: "010"%char :: "010"%char :: pystr "b" ++ ["010"%char]) =
    [pystr "a"; pystr ""; pystr "b"] ∧
  Py.splitlines (pystr "") = [] ∧
  Py.repr (pystr "it's") = "034"%char :: pystr "it's" ++ ["034"%char].
Proof. repeat split; vm_compute; reflexivity. Qed.

Lemma int_examples :
  Py.int_of_str (pystr "100") = Ok 100 ∧
  Py.int_of_str (pystr "-007") = Ok (-7) ∧
  Py.int_of_str (pystr "+1_000") = Ok 1000 ∧
  Py.int_of_str (pystr "1__0") =
    Raise (ValueError (pystr "invalid literal for int() with base 10: '1__0'")) ∧
  Py.int_of_str (pystr "1.0") =
    Raise (ValueError (pystr "invalid literal for int() with base 10: '1.0'")) ∧
  Py.int_of_str (pystr "") =
    Raise (ValueError (pystr "invalid literal for int() with base 10: ''")).
Proof. repeat split; vm_compute; reflexivity. Qed.

(** 0.1 is 0x1.999999999999ap-4; 5e-324 is the least positive float and
    2.4e-324 is below half of it; 1.7976931348623157e308 is the greatest
    finite float. *)
Lemma float_examples :
  Py.float_of_str (pystr "2.0") = Ok (S754_finite false 4503599627370496 (-51)) ∧
  Py.float_of_str (pystr "0.1") = Ok (S754_finite false 7205759403792794 (-56)) ∧
  Py.float_of_str (pystr ".5") = Py.float_of_str (pystr "5e-1") ∧
  Py.float_of_str (pystr "5.") = Py.float_of_str (pystr "+0_5.0E0") ∧
  Py.float_of_str (pystr "-0") = Ok (S754_zero true) ∧
  Py.float_of_str (pystr "5e-324") = Ok (S754_finite false 1 (-1074)) ∧
  Py.float_of_str (pystr "2.4e-324") = Ok (S754_zero false) ∧
  Py.float_of_str (pystr "1.7976931348623157e308") =
    Ok (S754_finite false 9007199254740991 971) ∧
  Py.float_of_str (pystr "1e309") = Ok (S754_infinity false) ∧
  Py.float_of_str (pystr "-Infinity") = Ok (S754_infinity true) ∧
  Py.float_of_str (pystr "NaN") = Ok S754_nan ∧
  Py.float_of_str (pystr "fast") =
    Raise (ValueError (pystr "could not convert string to float: 'fast'")) ∧
  Py.float_of_str (pystr "1e") =
    Raise (ValueError (pystr "could not convert string to float: '1e'")) ∧
  Py.float_of_str (pystr ".") =
    Raise (ValueError (pystr "could not convert string to float: '.'")) ∧
  Py.float_of_str (pystr "1_.5") =
    Raise (ValueError (pystr "could not convert string to float: '1_.5'")).
Proof. repeat split; vm_compute; reflexivity. Qed.

Lemma int_of_float_examples :
  Py.int_of_float (S754_finite false 3 (-1)) = Ok 1 ∧
  Py.int_of_float (S754_finite true 3 (-1)) = Ok (-1) ∧
  Py.round_of_float (S754_finite false 3 (-1)) = Ok 2 ∧
  Py.round_of_float (S754_finite false 5 (-1)) = Ok 2 ∧
  Py.int_of_float (S754_finite false 5 3) = Ok 40.
Proof. repeat split; vm_compute; reflexivity. Qed.

(** ** Characters and strings *)

#[local] Arguments Py.isspace : simpl never.
#[local] Arguments Py.isdigit : simpl never.
#[local] Arguments Py.is_lf : simpl never.
#[local] Arguments Py.upper_char : simpl never.
#[local] Arguments Re.is_pitch_letter : simpl never.
#[local] Arguments Re.is_accidental : simpl never.

Lemma pitch_letter_cases (c : ascii) :
  Re.is_pitch_letter c = true ->
  c ∈ ["A"; "B"; "C"; "D"; "E"; "F"; "G"]%char.
Proof.
  intros H. ascii_cases c H; set_solver.
Qed.

Lemma digit_cases (c : ascii) :
  Py.isdigit c = true ->
  c ∈ ["0"; "1"; "2"; "3"; "4"; "5"; "6"; "7"; "8"; "9"]%char.
Proof.
  intros H. ascii_cases c H; set_solver.
Qed.

Lemma upper_char_not_space (c : ascii) :
  Py.isspace c = false -> Py.isspace (Py.upper_char c) = false.
Proof.
  intros H. ascii_cases c H; reflexivity.
Qed.

Lemma lf_is_space (c : ascii) : Py.is_lf c = true -> Py.isspace c = true.
Proof.
  intros H. ascii_cases c H; reflexivity.
Qed.

(** What [lstrip] leaves is empty or starts with a character that is not
    whitespace. *)
Lemma lstrip_head (s : str) :
  match Py.lstrip s with
  | [] => True
  | c :: _ => Py.isspace c = false
  end.
Proof.
  induction s as [|c s IH]; simpl; [exact I|].
  destruct (Py.isspace c) eqn:E; [exact IH | exact E].
Qed.

(** What [strip] leaves does not end with whitespace. *)
Lemma strip_last (s : str) (c : ascii) :
  last (Py.strip s) = Some c -> Py.isspace c = false.
Proof.
  unfold Py.strip, Py.rstrip. rewrite last_reverse.
  pose proof (lstrip_head (reverse (Py.lstrip s))) as H.
  destruct (Py.lstrip (reverse (Py.lstrip s))) as [|d t]; simpl; [discriminate|].
  intros [= ->]. exact H.
Qed.

Lemma upper_strip_last (s : str) (c : ascii) :
  last (Py.upper (Py.strip s)) = Some c -> Py.isspace c = false.
Proof.
  unfold Py.upper. rewrite fmap_last.
  destruct (last (Py.strip s)) as [d|] eqn:E; simpl; [|discriminate].
  intros [= <-]. apply upper_char_not_space. eapply strip_last, E.
Qed.

(** Whitespace around a word that neither starts nor ends with whitespace
    is what [strip] removes. *)
Lemma lstrip_spaces (ws s : str) :
  forallb Py.isspace ws = true -> Py.lstrip (ws ++ s) = Py.lstrip s.
Proof.
  induction ws as [|c ws IH]; simpl; [reflexivity|].
  intros H. apply andb_prop in H as [-> H]. auto.
Qed.

Lemma lstrip_word (c : ascii) (s : str) :
  Py.isspace c = false -> Py.lstrip (c :: s) = c :: s.
Proof.
  intros H. simpl. rewrite H. reflexivity.
Qed.

Lemma strip_padded (ws1 ws2 w : str) (a b : ascii) (w' : str) :
  forallb Py.isspace ws1 = true ->
  forallb Py.isspace ws2 = true ->
  w = a :: w' -> Py.isspace a = false ->
  last w = Some b -> Py.isspace b = false ->
  Py.strip (ws1 ++ w ++ ws2) = w.
Proof.
  intros H1 H2 Hw Ha Hlast Hb. unfold Py.strip, Py.rstrip.
  rewrite (lstrip_spaces ws1 _ H1).
  replace (Py.lstrip (w ++ ws2)) with (w ++ ws2)
    by (rewrite Hw; symmetry; apply lstrip_word, Ha).
  rewrite reverse_app, lstrip_spaces.
  - apply last_Some in Hlast as [w0 ->].
    rewrite reverse_snoc, (lstrip_word _ _ Hb), <- reverse_snoc.
    apply reverse_involutive.
  - rewrite forallb_forall in *. intros c Hc. apply H2.
    apply list_elem_of_In. apply list_elem_of_In in Hc.
    rewrite elem_of_reverse in Hc. exact Hc.
Qed.

Lemma upper_char_space (c : ascii) :
  Py.isspace (Py.upper_char c) = Py.isspace c.
Proof.
  destruct c as [[] [] [] [] [] [] [] []]; reflexivity.
Qed.

(** ** The note resolver *)

Lemma accidental_cases (a : ascii) :
  Re.is_accidental a = true -> [a] = pystr "#" ∨ [a] = pystr "B".
Proof.
  intros H. ascii_cases a H; [left | right]; reflexivity.
Qed.

(** A match of the pattern on a string that does not end with whitespace
    is a word of the grammar, and the groups are its three parts. *)
Lemma match_note_Some (t : str) (g : str * str * str) :
  Re.match_note t = Some g ->
  (∀ c, last t = Some c -> Py.isspace c = false) ->
  ∃ p acc d,
    t = p :: acc ++ [d] ∧ g = ([p], acc, [d]) ∧
    Re.is_pitch_letter p = true ∧
    acc ∈ [pystr ""; pystr "#"; pystr "B"] ∧
    Py.isdigit d = true.
Proof.
  intros Hm Hlast.
  assert (Hnolf : ∀ c, last t = Some c -> Py.is_lf c = false).
  { intros c Hc. destruct (Py.is_lf c) eqn:E; [|reflexivity].
    apply lf_is_space in E. rewrite (Hlast c Hc) in E. discriminate. }
  clear Hlast. unfold Re.match_note in Hm.
  destruct t as [|p s1]; [discriminate|].
  destruct (Re.is_pitch_letter p) eqn:Hp; [|discriminate].
  destruct s1 as [|a s2]; [discriminate|].
  destruct s2 as [|d s3].
  - (* two characters *)
    destruct (Re.is_accidental a); simpl in Hm;
      destruct (Py.isdigit a) eqn:Ha; simpl in Hm; try discriminate;
      injection Hm as <-; exists p, [], a; repeat split; auto; set_solver.
  - destruct s3 as [|e s4].
    + (* three characters *)
      destruct (Re.is_accidental a) eqn:Hacc; simpl in Hm.
      * destruct (Py.isdigit d) eqn:Hd; simpl in Hm.
        -- injection Hm as <-. exists p, [a], d. repeat split; auto.
           destruct (accidental_cases a Hacc) as [-> | ->]; set_solver.
        -- rewrite (Hnolf d eq_refl), andb_false_r in Hm. discriminate.
      * rewrite (Hnolf d eq_refl), andb_false_r in Hm. discriminate.
    + (* four characters or more: only a final line feed could match *)
      destruct s4 as [|f s5]; simpl in Hm.
      * rewrite (Hnolf e eq_refl), !andb_false_r in Hm.
        destruct (Re.is_accidental a); simpl in Hm; discriminate.
      * rewrite !andb_false_r in Hm.
        destruct (Re.is_accidental a); simpl in Hm; discriminate.
Qed.

Lemma match_note_grammar (p : ascii) (acc : str) (d : ascii) :
  Re.is_pitch_letter p = true ->
  acc ∈ [pystr ""; pystr "#"; pystr "B"] ->
  Py.isdigit d = true ->
  Re.match_note (p :: acc ++ [d]) = Some ([p], acc, [d]).
Proof.
  intros Hp Hacc Hd. unfold Re.match_note. rewrite Hp.
  apply list_elem_of_In in Hacc. simpl in Hacc.
  destruct Hacc as [<- | [<- | [<- | []]]]; simpl; rewrite ?Hd; simpl;
    try reflexivity.
  ascii_cases d Hd; reflexivity.
Qed.

Lemma int_of_digit (d : ascii) :
  Py.isdigit d = true -> Py.int_of_str [d] = Ok (Py.digit_value d).
Proof.
  intros H. apply digit_cases in H. list_cases H; reflexivity.
Qed.

Lemma pitch_letter_not_R (p : ascii) :
  Re.is_pitch_letter p = true -> p ≠ "R"%char.
Proof.
  intros H. apply pitch_letter_cases in H. list_cases H; discriminate.
Qed.

Lemma normalize_rest (note : str) :
  is_rest_spelling note -> normalize_note_name note = Ok (pystr "R", None).
Proof.
  intros H. unfold normalize_note_name.
  rewrite bool_decide_eq_true_2 by exact H. reflexivity.
Qed.

Lemma normalize_not_rest (note : str) :
  ¬ is_rest_spelling note ->
  normalize_note_name note =
    let note := Py.upper (Py.strip note) in
    match Re.match_note note with
    | None => Raise (invalid_note_format note)
    | Some (pitch, accidental, octave_str) =>
        let '(pitch, accidental) :=
          if bool_decide (accidental = pystr "B")
          then (default pitch (flat_to_sharp !! pitch), pystr "")
          else (pitch, accidental) in
        let full_pitch := pitch ++ accidental in
        octave ← Py.int_of_str octave_str;
        if bool_decide (is_Some (note_map !! full_pitch))
        then Ok (full_pitch, Some octave)
        else Raise (invalid_after_normalization full_pitch)
    end.
Proof.
  intros H. unfold normalize_note_name.
  rewrite bool_decide_eq_false_2 by exact H. reflexivity.
Qed.

(** C7: a token that, trimmed and uppercased, is neither a rest nor a word
    of the grammar (one letter A-G, at most one accidental, one digit)
    makes the resolver raise the invalid-note-format error. *)
Theorem invalid_format_rejected (token : str) :
  ¬ is_rest_spelling token ->
  ¬ pitched_grammar (Py.upper (Py.strip token)) ->
  normalize_note_name token =
    Raise (invalid_note_format (Py.upper (Py.strip token))).
Proof.
  intros Hrest Hgram. rewrite normalize_not_rest by exact Hrest. cbv zeta.
  destruct (Re.match_note (Py.upper (Py.strip token))) as [g|] eqn:Hm;
    [|reflexivity].
  exfalso. apply Hgram.
  destruct (match_note_Some _ _ Hm (upper_strip_last token))
    as (p & acc & d & Ht & _ & Hp & Hacc & Hd).
  exists p, acc, d. auto.
Qed.

Lemma not_grammar_short (p : ascii) : ¬ pitched_grammar [p].
Proof.
  intros (q & acc & d & H & _). destruct acc; discriminate.
Qed.

Lemma not_grammar_head (p : ascii) (s : str) :
  Re.is_pitch_letter p = false -> ¬ pitched_grammar (p :: s).
Proof.
  intros Hp (q & acc & d & H & Hq & _). congruence.
Qed.

Lemma not_grammar_last (s : str) (c : ascii) :
  Py.isdigit c = false -> ¬ pitched_grammar (s ++ [c]).
Proof.
  intros Hc (q & acc & d & H & _ & _ & Hd).
  change (q :: acc ++ [d]) with ((q :: acc) ++ [d]) in H.
  apply app_inj_tail in H as [_ ->]. congruence.
Qed.

Lemma not_grammar_long (s : str) :
  (3 < length s)%nat -> ¬ pitched_grammar s.
Proof.
  intros Hlen (q & acc & d & -> & _ & Hacc & _).
  apply list_elem_of_In in Hacc. simpl in Hacc.
  destruct Hacc as [<- | [<- | [<- | []]]]; simpl in Hlen; lia.
Qed.

Lemma not_grammar_middle (p a d : ascii) :
  Re.is_accidental a = false -> ¬ pitched_grammar [p; a; d].
Proof.
  intros Ha (q & acc & e & H & _ & Hacc & _).
  apply list_elem_of_In in Hacc. simpl in Hacc.
  destruct Hacc as [<- | [<- | [<- | []]]]; simpl in H; try discriminate;
    injection H as -> -> ->; vm_compute in Ha; discriminate Ha.
Qed.

(** The tokens H4, C, C44 and C#b4 of the specification. *)
Lemma invalid_format_H4 :
  ¬ is_rest_spelling (pystr "H4") ∧
  ¬ pitched_grammar (Py.upper (Py.strip (pystr "H4"))) ∧
  normalize_note_name (pystr "H4") = Raise (invalid_note_format (pystr "H4")).
Proof.
  assert (H1 : ¬ is_rest_spelling (pystr "H4")) by (apply (bool_decide_eq_false_1 (is_rest_spelling _)); reflexivity).
  assert (H2 : ¬ pitched_grammar (Py.upper (Py.strip (pystr "H4"))))
    by (apply not_grammar_head; reflexivity).
  split; [exact H1|]. split; [exact H2|].
  exact (invalid_format_rejected (pystr "H4") H1 H2).
Defined.

Lemma invalid_format_examples :
  normalize_note_name (pystr "C") = Raise (invalid_note_format (pystr "C")) ∧
  normalize_note_name (pystr "C44") = Raise (invalid_note_format (pystr "C44")) ∧
  normalize_note_name (pystr "C#b4") = Raise (invalid_note_format (pystr "C#B4")) ∧
  normalize_note_name (pystr "Cm") = Raise (invalid_note_format (pystr "CM")) ∧
  ¬ pitched_grammar (pystr "C") ∧ ¬ pitched_grammar (pystr "C44") ∧
  ¬ pitched_grammar (pystr "C#B4") ∧ ¬ pitched_grammar (pystr "CM").
Proof.
  repeat split; try reflexivity.
  - apply not_grammar_short.
  - apply not_grammar_middle. reflexivity.
  - apply not_grammar_long. simpl. lia.
  - apply (not_grammar_last [_] "M"). reflexivity.
Qed.

(** C8: a string that, trimmed and uppercased, is R or REST resolves to
    the rest marker [('R', None)]. *)
Theorem rest_marker_returned (s : str) :
  Py.upper (Py.strip s) = pystr "R" ∨ Py.upper (Py.strip s) = pystr "REST" ->
  normalize_note_name s = Ok (pystr "R", None).
Proof.
  intros H. apply normalize_rest. unfold is_rest_spelling.
  destruct H as [-> | ->]; set_solver.
Qed.

Lemma rest_marker_witness :
  normalize_note_name (" "%char :: "009"%char :: pystr "rEsT  ") = Ok (pystr "R", None).
Proof.
  apply rest_marker_returned. right. reflexivity.
Defined.

(** Any letter case and any whitespace around: the words r and rest. *)
Lemma rest_marker_padded (ws1 ws2 w : str) :
  forallb Py.isspace ws1 = true ->
  forallb Py.isspace ws2 = true ->
  Py.upper w = pystr "R" ∨ Py.upper w = pystr "REST" ->
  normalize_note_name (ws1 ++ w ++ ws2) = Ok (pystr "R", None).
Proof.
  intros H1 H2 Hw. apply normalize_rest. unfold is_rest_spelling.
  assert (Hstrip : Py.strip (ws1 ++ w ++ ws2) = w).
  { destruct Hw as [Hw | Hw].
    - destruct w as [|a [|? ?]]; try discriminate. injection Hw as Ha.
      apply (strip_padded ws1 ws2 [a] a a [] H1 H2 eq_refl); [|reflexivity|];
        rewrite <- upper_char_space, Ha; reflexivity.
    - destruct w as [|a [|b [|c [|d [|? ?]]]]]; try discriminate.
      injection Hw as Ha _ _ Hd.
      apply (strip_padded ws1 ws2 [a; b; c; d] a d [b; c; d] H1 H2 eq_refl);
        [|reflexivity|]; rewrite <- upper_char_space; [rewrite Ha | rewrite Hd];
        reflexivity. }
  rewrite Hstrip. destruct Hw as [-> | ->]; repeat constructor.
Qed.

Lemma token_not_R (token : str) (p : ascii) (s : str) :
  Py.upper (Py.strip token) = p :: s -> s ≠ [] -> token ≠ pystr "R".
Proof.
  intros H Hs ->. vm_compute in H. injection H as _ <-. congruence.
Qed.

Lemma pitch_head_not_rest (token : str) (p : ascii) (s : str) :
  Py.upper (Py.strip token) = p :: s ->
  Re.is_pitch_letter p = true -> ¬ is_rest_spelling token.
Proof.
  unfold is_rest_spelling. intros -> Hp H.
  apply list_elem_of_In in H. simpl in H.
  destruct H as [H | [H | []]]; injection H as <- _;
    exact (pitch_letter_not_R _ Hp eq_refl).
Qed.

(** C5: a token that, trimmed and uppercased, is a letter, the flat sign
    and an octave digit resolves to the sharp spelling the enharmonic table
    gives for its letter, with the same octave digit; that sharp spelling
    with the same digit resolves to the same pitch and octave, and the two
    tokens have the same key. *)
Theorem flat_resolves_as_sharp (token : str) (p d : ascii) (sharp : str) :
  Py.upper (Py.strip token) = [p; "B"%char; d] ->
  (p, sharp) ∈ flat_table ->
  Py.isdigit d = true ->
  normalize_note_name token = Ok (sharp, Some (Py.digit_value d)) ∧
  normalize_note_name (sharp ++ [d]) = Ok (sharp, Some (Py.digit_value d)) ∧
  note_to_midi token = note_to_midi (sharp ++ [d]).
Proof.
  intros Hup Hp Hd.
  assert (Hne : token ≠ pystr "R") by (eapply token_not_R; [exact Hup | discriminate]).
  unfold note_to_midi. rewrite (bool_decide_eq_false_2 _ Hne).
  unfold normalize_note_name at 1 3. rewrite Hup. clear Hup Hne token.
  apply digit_cases in Hd.
  table_cases Hp; list_cases Hd; vm_compute; repeat split; reflexivity.
Qed.

Lemma flat_resolves_as_sharp_witness :
  normalize_note_name (pystr " db4") = Ok (pystr "C#", Some 4) ∧
  normalize_note_name (pystr "C#4") = Ok (pystr "C#", Some 4) ∧
  note_to_midi (pystr " db4") = note_to_midi (pystr "C#4").
Proof.
  apply (flat_resolves_as_sharp (pystr " db4") "D" "4" (pystr "C#")).
  - reflexivity.
  - unfold flat_table. repeat constructor.
  - reflexivity.
Defined.

(** C3: for a token that, trimmed and uppercased, is a letter A-G, at most
    one accidental and a digit, and whose sharp spelling (the letter, the
    letter with its sharp, or the entry of the flat table) stands in the
    pitch table with some offset, the key is 12 + offset + 12 * octave. *)
Theorem note_to_midi_key
    (token : str) (p : ascii) (acc : str) (d : ascii) (spelling : str) (offset : Z) :
  Py.upper (Py.strip token) = p :: acc ++ [d] ->
  Re.is_pitch_letter p = true ->
  Py.isdigit d = true ->
  (acc = pystr "" ∧ spelling = [p]) ∨
  (acc = pystr "#" ∧ spelling = [p; "#"%char]) ∨
  (acc = pystr "B" ∧ flat_to_sharp !! [p] = Some spelling) ->
  note_map !! spelling = Some offset ->
  note_to_midi token = Ok (Some (12 + offset + 12 * Py.digit_value d)).
Proof.
  intros Hup Hp Hd Hacc Hoff.
  assert (Hne : token ≠ pystr "R").
  { eapply token_not_R; [exact Hup|]. destruct acc; discriminate. }
  assert (Hnr : ¬ is_rest_spelling token) by (eapply pitch_head_not_rest; eauto).
  unfold note_to_midi. rewrite bool_decide_eq_false_2 by exact Hne.
  rewrite normalize_not_rest by exact Hnr. cbv zeta. rewrite Hup.
  assert (Hin : acc ∈ [pystr ""; pystr "#"; pystr "B"]).
  { destruct Hacc as [[-> _] | [[-> _] | [-> _]]]; repeat constructor. }
  rewrite (match_note_grammar p acc d Hp Hin Hd).
  rewrite (int_of_digit d Hd).
  assert (Hfull :
    (let '(pitch, accidental) :=
       if bool_decide (acc = pystr "B")
       then (default [p] (flat_to_sharp !! [p]), pystr "")
       else ([p], acc) in pitch ++ accidental) = spelling).
  { destruct Hacc as [[-> ->] | [[-> ->] | [-> Hf]]]; [reflexivity..|].
    rewrite bool_decide_eq_true_2 by reflexivity. rewrite Hf. simpl.
    apply app_nil_r. }
  destruct (if bool_decide (acc = pystr "B")
            then (default [p] (flat_to_sharp !! [p]), pystr "")
            else ([p], acc)) as [pitch accidental].
  rewrite Hfull, bind_Ok.
  rewrite bool_decide_eq_true_2 by (rewrite Hoff; eauto).
  rewrite bind_Ok. cbv beta iota.
  unfold note_map_get. rewrite Hoff. reflexivity.
Qed.

Lemma note_to_midi_key_witness :
  note_to_midi (pystr " bb3 ") = Ok (Some (12 + 10 + 12 * 3)).
Proof.
  apply (note_to_midi_key (pystr " bb3 ") "B" (pystr "B") "3" (pystr "A#") 10).
  - reflexivity.
  - reflexivity.
  - reflexivity.
  - right. right. split; reflexivity.
  - reflexivity.
Defined.

(** E#4 and B#4 are words of the grammar, but E# and B# are not in the pitch
    table: no key is produced. *)
Lemma sharp_outside_table_rejected :
  pitched_grammar (Py.upper (Py.strip (pystr "E#4"))) ∧
  Re.match_note (Py.upper (Py.strip (pystr "E#4"))) = Some (pystr "E", pystr "#", pystr "4") ∧
  note_to_midi (pystr "E#4") = Raise (invalid_after_normalization (pystr "E#")) ∧
  note_to_midi (pystr "B#4") = Raise (invalid_after_normalization (pystr "B#")) ∧
  ¬ (∃ key, note_to_midi (pystr "E#4") = Ok (Some key)).
Proof.
  split.
  { exists "E"%char, (pystr "#"), "4"%char. repeat split; repeat constructor. }
  repeat split; try (vm_compute; reflexivity).
  intros [key H]. vm_compute in H. discriminate H.
Qed.

(** *** What the resolver can raise *)

Lemma int_of_str_raises (s : str) (e : exn) :
  Py.int_of_str s = Raise e -> ∃ msg, e = ValueError msg.
Proof.
  unfold Py.int_of_str.
  destruct (Py.strip_underscores _ _) as [t|]; [|intros [= <-]; eauto].
  destruct (Py.split_sign t) as [neg ds].
  destruct (Py.all_digits ds); [discriminate|intros [= <-]; eauto].
Qed.

Lemma normalize_cases (note : str) :
  (is_rest_spelling note ∧ normalize_note_name note = Ok (pystr "R", None)) ∨
  (¬ is_rest_spelling note ∧
   ((∃ msg, normalize_note_name note = Raise (ValueError msg)) ∨
    (∃ full_pitch octave offset,
       normalize_note_name note = Ok (full_pitch, Some octave) ∧
       note_map !! full_pitch = Some offset))).
Proof.
  destruct (decide (is_rest_spelling note)) as [Hr | Hr].
  { left. split; [exact Hr | apply normalize_rest, Hr]. }
  right. split; [exact Hr|].
  rewrite normalize_not_rest by exact Hr. cbv zeta.
  destruct (Re.match_note _) as [[[pitch accidental] octave_str]|];
    [|left; unfold invalid_note_format; eauto].
  destruct (if bool_decide (accidental = pystr "B") then _ else _) as [pitch' acc'].
  destruct (Py.int_of_str octave_str) as [octave|e] eqn:Ho.
  - rewrite bind_Ok.
    destruct (bool_decide (is_Some (note_map !! (pitch' ++ acc')))) eqn:Hin.
    + apply bool_decide_eq_true_1 in Hin as [offset Hoff].
      right. exists (pitch' ++ acc'), octave, offset. auto.
    + left. unfold invalid_after_normalization. eauto.
  - rewrite bind_Raise. apply int_of_str_raises in Ho as [msg ->]. eauto.
Qed.

(** A rest spelled otherwise than [R] passes the first test of
    [note_to_midi], and the marker the resolver returns is no key of the
    pitch table. *)
Lemma note_to_midi_rest_misspelt (note : str) :
  note ≠ pystr "R" -> is_rest_spelling note ->
  note_to_midi note = Raise (KeyError (pystr "R")).
Proof.
  intros Hne Hr. unfold note_to_midi.
  rewrite bool_decide_eq_false_2 by exact Hne.
  rewrite (normalize_rest note Hr). reflexivity.
Qed.

Lemma note_to_midi_cases (note : str) :
  note_to_midi note = Ok None ∨
  (∃ key, note_to_midi note = Ok (Some key)) ∨
  (∃ msg, note_to_midi note = Raise (ValueError msg)) ∨
  (note ≠ pystr "R" ∧ is_rest_spelling note ∧
   note_to_midi note = Raise (KeyError (pystr "R"))).
Proof.
  destruct (decide (note = pystr "R")) as [-> | Hne]; [left; reflexivity|].
  destruct (normalize_cases note)
    as [[Hr _] | [_ [[msg H] | (fp & o & off & H & Hoff)]]].
  - right. right. right. auto using note_to_midi_rest_misspelt.
  - right. right. left. exists msg. unfold note_to_midi.
    rewrite bool_decide_eq_false_2 by exact Hne. rewrite H. reflexivity.
  - right. left. exists (12 + off + 12 * o). unfold note_to_midi.
    rewrite bool_decide_eq_false_2 by exact Hne. rewrite H, bind_Ok.
    cbv beta iota. unfold note_map_get. rewrite Hoff. reflexivity.
Qed.

(** *** The loop over the tokens of a chord *)

Lemma resolve_notes_total (notes : list str) (midi_notes : list Z) :
  Forall (fun n => ¬ rest_misspelt n) notes ->
  ∃ keys, resolve_notes notes midi_notes = Ok keys.
Proof.
  intros H. revert midi_notes.
  induction H as [|n notes Hn _ IH]; intros midi_notes; simpl; [eauto|].
  destruct (note_to_midi_cases n)
    as [-> | [[key ->] | [[msg ->] | (Hne & Hr & _)]]]; auto.
  exfalso. apply Hn. split; assumption.
Qed.

Lemma resolve_notes_abort (notes : list str) (midi_notes : list Z) :
  Exists rest_misspelt notes ->
  resolve_notes notes midi_notes = Raise (KeyError (pystr "R")).
Proof.
  intros H. revert midi_notes.
  induction H as [n notes [Hne Hr] | n notes _ IH]; intros midi_notes; simpl.
  - rewrite note_to_midi_rest_misspelt by assumption. reflexivity.
  - destruct (note_to_midi_cases n)
      as [E | [[key E] | [[msg E] | (_ & _ & E)]]]; rewrite E; auto.
Qed.

(** Without such a rest, the loop collects the keys of the tokens that
    resolve, behind the keys it starts with. *)
Lemma resolve_notes_app (notes : list str) (midi_notes : list Z) :
  Forall (fun n => ¬ rest_misspelt n) notes ->
  resolve_notes notes midi_notes = Ok (midi_notes ++ omap key_of notes).
Proof.
  intros H. revert midi_notes.
  induction H as [|n notes Hn _ IH]; intros acc; simpl.
  - rewrite app_nil_r. reflexivity.
  - unfold key_of.
    destruct (note_to_midi_cases n)
      as [E | [[key E] | [[msg E] | (Hne & Hr & _)]]];
      [rewrite E, IH; reflexivity
      |rewrite E, IH, <- app_assoc; reflexivity
      |rewrite E, IH; reflexivity
      |exfalso; apply Hn; split; assumption].
Qed.

Lemma resolve_notes_omap (notes : list str) :
  Forall (fun n => ¬ rest_misspelt n) notes ->
  resolve_notes notes [] = Ok (omap key_of notes).
Proof. apply resolve_notes_app. Qed.

Lemma no_rest_misspelt (notes : list str) :
  forallb (fun n => negb (bool_decide (rest_misspelt n))) notes = true ->
  Forall (fun n => ¬ rest_misspelt n) notes.
Proof.
  intros Hn. apply Forall_forall. intros n Hin.
  rewrite forallb_forall in Hn. apply list_elem_of_In, Hn in Hin.
  apply negb_true_iff, bool_decide_eq_false_1 in Hin. exact Hin.
Qed.

(** ** The score compiler *)

Lemma float_of_str_raises (s : str) (e : exn) :
  Py.float_of_str s = Raise e -> ∃ msg, e = ValueError msg.
Proof.
  unfold Py.float_of_str.
  destruct (Py.strip_underscores _ _) as [t|]; [|intros [= <-]; eauto].
  destruct (Py.split_sign t) as [neg body].
  destruct (_ || _); [discriminate|].
  destruct (bool_decide _); [discriminate|].
  destruct (Py.span_digits body) as [ipart r1].
  destruct (match r1 with [] => _ | _ => _ end) as [fpart r2].
  destruct (Py.nonempty _); [|intros [= <-]; eauto].
  destruct (Py.exponent_of r2); [discriminate|intros [= <-]; eauto].
Qed.

Lemma split_strip_nonempty (line : str) (w : str) (ws : list str) :
  Py.split (Py.strip line) = w :: ws -> Py.nonempty (Py.strip line) = true.
Proof.
  destruct (Py.strip line); [discriminate | reflexivity].
Qed.

Lemma chord_messages_cons (key : Z) (keys : list Z) (velocity ticks : Z) :
  chord_messages (key :: keys) velocity ticks =
    ((fun k => note_on k velocity 0) <$> (key :: keys)) ++
    note_off key velocity ticks :: ((fun k => note_off k velocity 0) <$> keys).
Proof.
  unfold chord_messages. f_equal. rewrite imap_cons. f_equal.
  rewrite <- imap_const. apply imap_ext. reflexivity.
Qed.

Lemma check_data_byte_true (value : Z) :
  data_byte value = true -> check_data_byte value = Ok tt.
Proof.
  intros H. unfold check_data_byte. rewrite H. reflexivity.
Qed.

Lemma check_data_byte_false (value : Z) :
  data_byte value = false ->
  check_data_byte value = Raise (ValueError (pystr "data byte must be in range 0..127")).
Proof.
  intros H. unfold check_data_byte. rewrite H. reflexivity.
Qed.

Lemma new_note_on_checked (note velocity time : Z) :
  new_note_on note velocity time =
    if data_byte note && data_byte velocity then Ok (note_on note velocity time)
    else Raise (ValueError (pystr "data byte must be in range 0..127")).
Proof.
  unfold new_note_on, check_data_byte.
  destruct (data_byte note), (data_byte velocity); reflexivity.
Qed.

Lemma new_note_off_checked (note velocity time : Z) :
  new_note_off note velocity time =
    if data_byte note && data_byte velocity then Ok (note_off note velocity time)
    else Raise (ValueError (pystr "data byte must be in range 0..127")).
Proof.
  unfold new_note_off, check_data_byte.
  destruct (data_byte note), (data_byte velocity); reflexivity.
Qed.

Lemma new_program_change_0 : new_program_change 0 0 = Ok (program_change 0 0).
Proof. reflexivity. Qed.

Lemma note_ons_checked (keys : list Z) (velocity : Z) :
  data_byte velocity = true ->
  note_ons keys velocity =
    if forallb data_byte keys then Ok ((fun k => note_on k velocity 0) <$> keys)
    else Raise (ValueError (pystr "data byte must be in range 0..127")).
Proof.
  intros Hv. induction keys as [|k keys IH]; [reflexivity|].
  cbn [note_ons forallb]. rewrite new_note_on_checked, Hv, andb_true_r.
  destruct (data_byte k); [|reflexivity].
  rewrite bind_Ok, IH. destruct (forallb data_byte keys); reflexivity.
Qed.

Lemma note_offs_checked (i : nat) (keys : list Z) (velocity ticks : Z) :
  data_byte velocity = true ->
  forallb data_byte keys = true ->
  note_offs i keys velocity ticks =
    Ok (imap (fun j k =>
                note_off k velocity (if bool_decide ((i + j)%nat = 0%nat) then ticks else 0))
             keys).
Proof.
  intros Hv. revert i. induction keys as [|k keys IH]; intros i Hk; [reflexivity|].
  cbn [note_offs]. cbn [forallb] in Hk. apply andb_prop in Hk as [Hk Hks].
  rewrite new_note_off_checked, Hk, Hv. cbn [andb]. rewrite bind_Ok, IH by exact Hks.
  rewrite bind_Ok, imap_cons. rewrite Nat.add_0_r. do 2 f_equal.
  apply imap_ext. intros j k' _. simpl. rewrite Nat.add_succ_r. reflexivity.
Qed.

(** The checks of the constructor, gathered: the events of a chord are
    built exactly when its data bytes pass. *)
Lemma chord_events_checked (keys : list Z) (velocity ticks : Z) :
  chord_events keys velocity ticks =
    if chord_ok keys velocity then Ok (chord_messages keys velocity ticks)
    else Raise (ValueError (pystr "data byte must be in range 0..127")).
Proof.
  destruct keys as [|key keys]; [reflexivity|].
  unfold chord_events, chord_ok, chord_messages.
  destruct (data_byte velocity) eqn:Hv.
  - rewrite (note_ons_checked _ _ Hv), andb_true_r.
    destruct (forallb data_byte (key :: keys)) eqn:Hk; [|reflexivity].
    rewrite bind_Ok, (note_offs_checked 0 _ _ _ Hv Hk), bind_Ok. reflexivity.
  - rewrite andb_false_r. cbn [note_ons].
    rewrite new_note_on_checked, Hv, andb_false_r. reflexivity.
Qed.

Lemma chord_events_Ok (keys : list Z) (velocity ticks : Z) (events : list Message) :
  chord_events keys velocity ticks = Ok events ->
  chord_ok keys velocity = true ∧ events = chord_messages keys velocity ticks.
Proof.
  rewrite chord_events_checked. destruct (chord_ok keys velocity); [|discriminate].
  intros [= <-]. auto.
Qed.

Lemma chord_messages_no_tempo (keys : list Z) (velocity ticks : Z) :
  Forall (fun m => is_set_tempo m = false) (chord_messages keys velocity ticks).
Proof.
  destruct keys as [|key keys]; [repeat constructor|].
  rewrite chord_messages_cons. apply Forall_app. split; [|constructor; [reflexivity|]];
    apply Forall_fmap, Forall_forall; reflexivity.
Qed.

Lemma total_time_app (l1 l2 : list Message) :
  total_time (l1 ++ l2) = total_time l1 + total_time l2.
Proof.
  unfold total_time. induction l1 as [|m l1 IH]; simpl; [reflexivity|].
  rewrite IH. lia.
Qed.

Lemma total_time_zero {A : Type} (f : A -> Message) (l : list A) :
  (∀ a, time_of (f a) = 0) -> total_time (f <$> l) = 0.
Proof.
  intros H. unfold total_time. induction l as [|a l IH]; csimpl; [reflexivity|].
  rewrite H, IH. reflexivity.
Qed.

(** One event of a line carries the duration, the others carry zero. *)
Lemma chord_messages_total_time (keys : list Z) (velocity ticks : Z) :
  total_time (chord_messages keys velocity ticks) = ticks.
Proof.
  destruct keys as [|key keys]; [unfold total_time; simpl; lia|].
  rewrite chord_messages_cons, total_time_app.
  rewrite total_time_zero by reflexivity.
  change (total_time (note_off key velocity ticks :: ?l))
    with (ticks + total_time l).
  rewrite total_time_zero by reflexivity. lia.
Qed.

(** [int] of a finite float is the quotient, truncated toward zero, of the
    float written as a fraction. *)
Lemma int_of_float_quot (x : Py.float) (t : Z) :
  Py.int_of_float x = Ok t ->
  ∃ n den, as_fraction x = Some (n, den) ∧ 0 < den ∧ t = Z.quot n den.
Proof.
  destruct x as [s | s | | s m e]; simpl; try discriminate.
  - intros [= <-]. exists 0, 1. repeat split; lia.
  - intros [= <-]. destruct (Z.leb_spec 0 e) as [He | He].
    + exists ((if s then Z.neg m else Z.pos m) * 2 ^ e), 1.
      split; [reflexivity|]. split; [lia|].
      rewrite Z.quot_1_r. destruct s; lia.
    + exists (if s then Z.neg m else Z.pos m), (2 ^ (- e)).
      assert (Hpow : 0 < 2 ^ (- e)) by (apply Z.pow_pos_nonneg; lia).
      split; [reflexivity|]. split; [exact Hpow|].
      destruct s.
      * change (Z.neg m) with (- Z.pos m). rewrite Z.quot_opp_l by lia.
        rewrite Z.quot_div_nonneg by lia. reflexivity.
      * rewrite Z.quot_div_nonneg by lia. reflexivity.
Qed.

Lemma int_of_float_finite (x : Py.float) :
  is_finite x = true -> ∃ t, Py.int_of_float x = Ok t.
Proof.
  destruct x; simpl; try discriminate; eauto.
Qed.

Lemma as_fraction_int_of_float (x : Py.float) (n den : Z) :
  as_fraction x = Some (n, den) -> Py.int_of_float x = Ok (Z.quot n den).
Proof.
  intros H.
  destruct (int_of_float_finite x) as [t Ht];
    [destruct x; try discriminate; reflexivity|].
  destruct (int_of_float_quot _ _ Ht) as (n' & den' & H' & _ & ->).
  rewrite H in H'. injection H' as <- <-. exact Ht.
Qed.

(** *** One line with two fields or more and a duration that parses *)

Section ParsedLine.

Variable tpb : Z.
Variables line notes_part duration_str : str.
Variable rest : list str.
Variable duration : Py.float.

Hypothesis Hfields : Py.split (Py.strip line) = notes_part :: duration_str :: rest.
Hypothesis Hduration : Py.float_of_str duration_str = Ok duration.

Lemma line_events_parsed :
  line_events tpb line =
    (velocity ← velocity_of rest;
     ticks ← duration_ticks tpb duration;
     midi_notes ← resolve_notes (Py.strip <$> Py.split_comma notes_part) [];
     chord_events midi_notes velocity ticks).
Proof.
  unfold line_events.
  rewrite (split_strip_nonempty _ _ _ Hfields), Hfields, Hduration. reflexivity.
Qed.

(** C2: a line whose chord resolves to the keys [key :: keys'] gives, when
    the keys and the velocity are data bytes (0 to 127), one key-down event
    per key, each with delta-time 0 and the velocity of the line, then one
    key-up event per key, the first with the duration in ticks and the
    others with delta-time 0; otherwise the constructor of the events
    raises [ValueError]. *)
Theorem chord_line_events (velocity ticks key : Z) (keys' : list Z) :
  velocity_of rest = Ok velocity ->
  duration_ticks tpb duration = Ok ticks ->
  resolve_notes (Py.strip <$> Py.split_comma notes_part) [] = Ok (key :: keys') ->
  line_events tpb line =
    if forallb data_byte (key :: keys') && data_byte velocity
    then Ok (((fun k => note_on k velocity 0) <$> (key :: keys')) ++
             note_off key velocity ticks ::
             ((fun k => note_off k velocity 0) <$> keys'))
    else Raise (ValueError (pystr "data byte must be in range 0..127")).
Proof.
  intros Hv Ht Hk.
  rewrite line_events_parsed, Hv, bind_Ok, Ht, bind_Ok, Hk, bind_Ok.
  rewrite chord_events_checked. unfold chord_ok.
  destruct (forallb data_byte (key :: keys') && data_byte velocity);
    [|reflexivity].
  f_equal. apply chord_messages_cons.
Qed.

(** A line whose chord resolves to no key gives no key-down event and
    exactly one key-up event, of key 0 and velocity 0, that carries the
    whole duration in ticks. *)
Lemma rest_line_events (velocity ticks : Z) :
  velocity_of rest = Ok velocity ->
  duration_ticks tpb duration = Ok ticks ->
  resolve_notes (Py.strip <$> Py.split_comma notes_part) [] = Ok [] ->
  line_events tpb line = Ok [note_off 0 0 ticks].
Proof.
  intros Hv Ht Hk.
  rewrite line_events_parsed, Hv, bind_Ok, Ht, bind_Ok, Hk. reflexivity.
Qed.

(** C4: the events of a line with a parsed duration advance the time by
    the product of the resolution and the duration, computed in binary64,
    with its fraction dropped: the quotient truncated toward zero of the
    product written as a fraction. *)
Theorem line_ticks_truncated (events : list Message) :
  line_events tpb line = Ok events ->
  ∃ x n den,
    Py.float_of_int tpb = Ok x ∧
    as_fraction (Py.float_mul x duration) = Some (n, den) ∧
    0 < den ∧
    duration_ticks tpb duration = Ok (Z.quot n den) ∧
    total_time events = Z.quot n den.
Proof.
  rewrite line_events_parsed.
  destruct (velocity_of rest) as [velocity|]; [|discriminate].
  rewrite bind_Ok. unfold duration_ticks.
  destruct (Py.float_of_int tpb) as [x|]; [|discriminate].
  rewrite !bind_Ok.
  destruct (Py.int_of_float (Py.float_mul x duration)) as [t|] eqn:Ht; [|discriminate].
  rewrite bind_Ok.
  destruct (resolve_notes _ _) as [keys|]; [|discriminate].
  rewrite bind_Ok. intros Hc. apply chord_events_Ok in Hc as [_ ->].
  destruct (int_of_float_quot _ _ Ht) as (n & den & Hf & Hden & ->).
  exists x, n, den. repeat split; auto using chord_messages_total_time.
Qed.

(** A rest spelled otherwise than [R] among the tokens of the line. *)
Lemma line_events_misspelt_rest (velocity ticks : Z) (token : str) :
  velocity_of rest = Ok velocity ->
  duration_ticks tpb duration = Ok ticks ->
  token ∈ Py.strip <$> Py.split_comma notes_part ->
  rest_misspelt token ->
  line_events tpb line = Raise (KeyError (pystr "R")).
Proof.
  intros Hv Ht Hin Hr.
  rewrite line_events_parsed, Hv, bind_Ok, Ht, bind_Ok.
  rewrite resolve_notes_abort; [reflexivity|].
  apply Exists_exists. exists token. auto.
Qed.

(** C6: a line whose notes field is one token that the resolver takes for
    a rest ([R], [Rest] or [REST] in any case).  Spelled [R], it gives no
    key-down event and exactly one key-up event of key 0 and velocity 0,
    which carries the duration in ticks: the product of the resolution and
    the duration, written as a fraction and truncated.  Spelled otherwise,
    it gives no event: the line raises [KeyError('R')]. *)
Theorem rest_spelling_line (token : str) (x : Py.float) (velocity n den : Z) :
  Py.strip <$> Py.split_comma notes_part = [token] ->
  is_rest_spelling token ->
  velocity_of rest = Ok velocity ->
  Py.float_of_int tpb = Ok x ->
  as_fraction (Py.float_mul x duration) = Some (n, den) ->
  line_events tpb line =
    if bool_decide (token = pystr "R") then Ok [note_off 0 0 (Z.quot n den)]
    else Raise (KeyError (pystr "R")).
Proof.
  intros Htok Hr Hv Hx Hf.
  assert (Ht : duration_ticks tpb duration = Ok (Z.quot n den)).
  { unfold duration_ticks. rewrite Hx, bind_Ok.
    apply as_fraction_int_of_float, Hf. }
  destruct (bool_decide (token = pystr "R")) eqn:HR.
  - apply bool_decide_eq_true_1 in HR. subst token.
    apply (rest_line_events velocity _ Hv Ht). rewrite Htok. reflexivity.
  - apply bool_decide_eq_false_1 in HR.
    apply (line_events_misspelt_rest velocity _ token Hv Ht).
    + rewrite Htok. constructor.
    + split; assumption.
Qed.

End ParsedLine.

Lemma rest_spelling_line_witness :
  line_events 480 (pystr "R 1.5 100") = Ok [note_off 0 0 720] ∧
  line_events 480 (pystr "Rest 0.999") = Raise (KeyError (pystr "R")).
Proof.
  split.
  - refine (rest_spelling_line 480 (pystr "R 1.5 100")
              (pystr "R") (pystr "1.5") [pystr "100"]
              (S754_finite false 6755399441055744 (-52)) _ _
              (pystr "R") (S754_finite false 8444249301319680 (-44)) 100
              6333186975989760 8796093022208 _ _ _ _ _).
    + vm_compute. reflexivity.
    + vm_compute. reflexivity.
    + vm_compute. reflexivity.
    + unfold is_rest_spelling. vm_compute. repeat constructor.
    + vm_compute. reflexivity.
    + vm_compute. reflexivity.
    + vm_compute. reflexivity.
  - refine (rest_spelling_line 480 (pystr "Rest 0.999")
              (pystr "Rest") (pystr "0.999") []
              (S754_finite false 8998192055486251 (-53)) _ _
              (pystr "Rest") (S754_finite false 8444249301319680 (-44)) 64
              8435805052018360 17592186044416 _ _ _ _ _).
    + vm_compute. reflexivity.
    + vm_compute. reflexivity.
    + vm_compute. reflexivity.
    + unfold is_rest_spelling. vm_compute. repeat constructor.
    + vm_compute. reflexivity.
    + vm_compute. reflexivity.
    + vm_compute. reflexivity.
Defined.

(** The spellings the window offers for a rest: only [R] gives the event
    of a rest, here of 720 ticks; the others abort the compile. *)
Lemma rest_spelling_examples :
  line_events 480 (pystr "R 1.5") = Ok [note_off 0 0 720] ∧
  line_events 480 (pystr "R 0.999") = Ok [note_off 0 0 479] ∧
  line_events 480 (pystr "Rest 1.5") = Raise (KeyError (pystr "R")) ∧
  line_events 480 (pystr "REST 1.5") = Raise (KeyError (pystr "R")) ∧
  line_events 480 (pystr "rest 1.5") = Raise (KeyError (pystr "R")) ∧
  line_events 480 (pystr "r 1.5") = Raise (KeyError (pystr "R")) ∧
  parse_text_to_midi (pystr "Rest 1.5") DEFAULT_BPM = Raise (KeyError (pystr "R")) ∧
  ¬ (∃ ticks, line_events 480 (pystr "Rest 1.5") = Ok [note_off 0 0 ticks]).
Proof.
  repeat split; try (vm_compute; reflexivity).
  intros [ticks H]. vm_compute in H. discriminate H.
Qed.

Lemma chord_line_events_witness :
  line_events 480 (pystr "C4,E4,G4 2.0 100") =
    if forallb data_byte [60; 64; 67] && data_byte 100
    then Ok (((fun k => note_on k 100 0) <$> [60; 64; 67]) ++
             note_off 60 100 960 :: ((fun k => note_off k 100 0) <$> [64; 67]))
    else Raise (ValueError (pystr "data byte must be in range 0..127")).
Proof.
  refine (chord_line_events 480 (pystr "C4,E4,G4 2.0 100")
            (pystr "C4,E4,G4") (pystr "2.0") [pystr "100"]
            (S754_finite false 4503599627370496 (-51)) _ _
            100 960 60 [64; 67] _ _ _).
  - vm_compute. reflexivity.
  - vm_compute. reflexivity.
  - vm_compute. reflexivity.
  - vm_compute. reflexivity.
  - vm_compute. reflexivity.
Defined.

Lemma chord_line_example :
  parse_text_to_midi (pystr "C4,E4,G4 2.0 100") DEFAULT_BPM =
    Ok (mkMidiFile 480
          [[program_change 0 0;
            note_on 60 100 0; note_on 64 100 0; note_on 67 100 0;
            note_off 60 100 960; note_off 64 100 0; note_off 67 100 0]]).
Proof. vm_compute. reflexivity. Qed.

(** A velocity of 200, or the key 128 of G#9: the chord resolves, and the
    constructor of the first event raises; nothing catches it. *)
Lemma data_byte_out_of_range :
  resolve_notes (Py.strip <$> Py.split_comma (pystr "C4,E4,G4")) [] = Ok [60; 64; 67] ∧
  line_events 480 (pystr "C4,E4,G4 2.0 200") =
    Raise (ValueError (pystr "data byte must be in range 0..127")) ∧
  resolve_notes (Py.strip <$> Py.split_comma (pystr "G#9")) [] = Ok [128] ∧
  line_events 480 (pystr "G#9 1.0") =
    Raise (ValueError (pystr "data byte must be in range 0..127")) ∧
  parse_text_to_midi (pystr "C4,E4,G4 2.0 200") 90 =
    Raise (ValueError (pystr "data byte must be in range 0..127")) ∧
  ¬ (∃ events, line_events 480 (pystr "C4,E4,G4 2.0 200") = Ok events).
Proof.
  repeat split; try (vm_compute; reflexivity).
  intros [events H]. vm_compute in H. discriminate H.
Qed.

Lemma rest_line_examples :
  line_events 480 (pystr "R 1.0") = Ok [note_off 0 0 480] ∧
  line_events 480 (pystr "R 1.5 200") = Ok [note_off 0 0 720] ∧
  parse_text_to_midi (pystr "R 1.0") DEFAULT_BPM =
    Ok (mkMidiFile 480 [[program_change 0 0; note_off 0 0 480]]) ∧
  parse_text_to_midi (pystr "H4,x 1.0") DEFAULT_BPM =
    Ok (mkMidiFile 480 [[program_change 0 0; note_off 0 0 480]]).
Proof. repeat split; vm_compute; reflexivity. Qed.

Lemma line_ticks_truncated_witness :
  ∃ x n den,
    Py.float_of_int 480 = Ok x ∧
    as_fraction (Py.float_mul x (S754_finite false 8998192055486251 (-53)))
      = Some (n, den) ∧
    0 < den ∧
    duration_ticks 480 (S754_finite false 8998192055486251 (-53)) = Ok (Z.quot n den) ∧
    total_time [note_on 60 64 0; note_off 60 64 479] = Z.quot n den.
Proof.
  refine (line_ticks_truncated 480 (pystr "C4 0.999") (pystr "C4") (pystr "0.999") []
            (S754_finite false 8998192055486251 (-53)) _ _
            [note_on 60 64 0; note_off 60 64 479] _).
  - vm_compute. reflexivity.
  - vm_compute. reflexivity.
  - vm_compute. reflexivity.
Defined.

(** For the duration 0.999 the product is 479.52: the compiler gives 479
    ticks where rounding to the nearest tick gives 480. *)
Lemma ticks_not_rounded :
  Py.float_of_str (pystr "0.999") = Ok (S754_finite false 8998192055486251 (-53)) ∧
  duration_ticks 480 (S754_finite false 8998192055486251 (-53)) = Ok 479 ∧
  rounded_ticks 480 (S754_finite false 8998192055486251 (-53)) = Ok 480 ∧
  line_events 480 (pystr "C4 0.999") = Ok [note_on 60 64 0; note_off 60 64 479] ∧
  duration_ticks 480 (S754_finite false 8998192055486251 (-53)) ≠
    rounded_ticks 480 (S754_finite false 8998192055486251 (-53)).
Proof.
  repeat split; try (vm_compute; reflexivity).
  vm_compute. discriminate.
Qed.

(** *** The loop over the lines *)

Lemma compile_lines_app (tpb : Z) (pre post : list str) (track track' : MidiTrack) :
  compile_lines tpb pre track = Ok track' ->
  compile_lines tpb (pre ++ post) track = compile_lines tpb post track'.
Proof.
  revert track. induction pre as [|l pre IH]; intros track; simpl.
  - intros [= ->]. reflexivity.
  - destruct (line_events tpb l) as [events|e]; [|discriminate].
    rewrite !bind_Ok. apply IH.
Qed.

Lemma compile_lines_total (tpb : Z) (lines : list str) (track : MidiTrack) :
  Forall (fun l => ∃ events, line_events tpb l = Ok events) lines ->
  ∃ events, compile_lines tpb lines track = Ok (track ++ events).
Proof.
  intros H. revert track.
  induction H as [|l lines [ev Hl] _ IH]; intros track; simpl.
  - exists []. rewrite app_nil_r. reflexivity.
  - rewrite Hl, bind_Ok. destruct (IH (track ++ ev)) as [evs ->].
    exists (ev ++ evs). rewrite app_assoc. reflexivity.
Qed.

Lemma compile_lines_abort
    (tpb : Z) (pre : list str) (line : str) (post : list str)
    (track : MidiTrack) (e : exn) :
  Forall (fun l => ∃ events, line_events tpb l = Ok events) pre ->
  line_events tpb line = Raise e ->
  compile_lines tpb (pre ++ line :: post) track = Raise e.
Proof.
  intros Hpre Hline.
  destruct (compile_lines_total tpb pre track Hpre) as [evs Hc].
  rewrite (compile_lines_app _ _ _ _ _ Hc). simpl. rewrite Hline. reflexivity.
Qed.

Lemma bpm2tempo_nonzero (bpm : Z) :
  bpm ≠ 0 -> bpm2tempo bpm = Ok (div_round_half_even 60000000 bpm).
Proof.
  intros H. unfold bpm2tempo. destruct (Z.eqb_spec bpm 0); [contradiction|reflexivity].
Qed.

Lemma parse_text_to_midi_nonzero (text : str) (bpm : Z) :
  bpm ≠ 0 ->
  parse_text_to_midi text bpm =
    (track ← compile_lines DEFAULT_TICKS_PER_BEAT (Py.splitlines (Py.strip text))
               [program_change 0 0];
     Ok (mkMidiFile DEFAULT_TICKS_PER_BEAT [track])).
Proof.
  intros H. unfold parse_text_to_midi. rewrite (bpm2tempo_nonzero bpm H). reflexivity.
Qed.

(** C10: when a line that reaches the resolving loop (two fields or more, a
    duration and a velocity that parse, a tick count that is defined) has
    among its tokens a rest spelled otherwise than the exact string [R],
    and the lines before it compile, the line and the whole compile raise
    [KeyError('R')]. *)
Theorem misspelt_rest_aborts
    (text : str) (bpm : Z) (pre : list str) (line : str) (post : list str)
    (notes_part duration_str : str) (rest : list str)
    (duration : Py.float) (velocity ticks : Z) (token : str) :
  bpm ≠ 0 ->
  Py.splitlines (Py.strip text) = pre ++ line :: post ->
  Forall (fun l => ∃ events, line_events DEFAULT_TICKS_PER_BEAT l = Ok events) pre ->
  Py.split (Py.strip line) = notes_part :: duration_str :: rest ->
  Py.float_of_str duration_str = Ok duration ->
  velocity_of rest = Ok velocity ->
  duration_ticks DEFAULT_TICKS_PER_BEAT duration = Ok ticks ->
  token ∈ Py.strip <$> Py.split_comma notes_part ->
  token ≠ pystr "R" ->
  is_rest_spelling token ->
  line_events DEFAULT_TICKS_PER_BEAT line = Raise (KeyError (pystr "R")) ∧
  parse_text_to_midi text bpm = Raise (KeyError (pystr "R")).
Proof.
  intros Hbpm Hlines Hpre Hs Hd Hv Ht Hin Hne Hr.
  assert (Hline : line_events DEFAULT_TICKS_PER_BEAT line = Raise (KeyError (pystr "R"))).
  { eapply line_events_misspelt_rest; eauto. split; assumption. }
  split; [exact Hline|].
  rewrite (parse_text_to_midi_nonzero text bpm Hbpm), Hlines.
  rewrite (compile_lines_abort _ _ _ _ _ _ Hpre Hline). reflexivity.
Qed.

Lemma misspelt_rest_aborts_witness :
  line_events DEFAULT_TICKS_PER_BEAT (pystr "REST 1.0") = Raise (KeyError (pystr "R")) ∧
  parse_text_to_midi (pystr "REST 1.0") 90 = Raise (KeyError (pystr "R")).
Proof.
  apply (misspelt_rest_aborts (pystr "REST 1.0") 90 [] (pystr "REST 1.0") []
           (pystr "REST") (pystr "1.0") []
           (S754_finite false 4503599627370496 (-52)) 64 480 (pystr "REST")).
  - discriminate.
  - vm_compute. reflexivity.
  - constructor.
  - vm_compute. reflexivity.
  - vm_compute. reflexivity.
  - vm_compute. reflexivity.
  - vm_compute. reflexivity.
  - constructor.
  - discriminate.
  - unfold is_rest_spelling. repeat constructor.
Defined.

Lemma misspelt_rest_examples :
  parse_text_to_midi (pystr "rest 1.0") 90 = Raise (KeyError (pystr "R")) ∧
  parse_text_to_midi (pystr "r 1.0") 90 = Raise (KeyError (pystr "R")) ∧
  parse_text_to_midi (pystr "Rest 1.0") 90 = Raise (KeyError (pystr "R")) ∧
  parse_text_to_midi (pystr "C4 1.0" ++ "010"%char :: pystr "C4,rest 1.0") 90 =
    Raise (KeyError (pystr "R")).
Proof. repeat split; vm_compute; reflexivity. Qed.

(** *** Which errors are swallowed *)

Lemma token_error_swallowed (n : str) (notes : list str) (keys : list Z) (msg : str) :
  note_to_midi n = Raise (ValueError msg) ->
  resolve_notes (n :: notes) keys = resolve_notes notes keys.
Proof.
  intros H. simpl. rewrite H. reflexivity.
Qed.

Lemma blank_line_skipped (tpb : Z) (line : str) :
  Py.strip line = [] -> line_events tpb line = Ok [].
Proof.
  intros H. unfold line_events. rewrite H. reflexivity.
Qed.

Lemma short_line_skipped (tpb : Z) (line : str) :
  (length (Py.split (Py.strip line)) < 2)%nat -> line_events tpb line = Ok [].
Proof.
  intros H. unfold line_events.
  destruct (negb _); [reflexivity|].
  destruct (Py.split (Py.strip line)) as [|a [|b r]]; try reflexivity.
  simpl in H. lia.
Qed.

Lemma bad_duration_skipped
    (tpb : Z) (line notes_part duration_str : str) (rest : list str) (e : exn) :
  Py.split (Py.strip line) = notes_part :: duration_str :: rest ->
  Py.float_of_str duration_str = Raise e ->
  line_events tpb line = Ok [].
Proof.
  intros Hs Hd. unfold line_events.
  rewrite (split_strip_nonempty _ _ _ Hs), Hs, Hd.
  apply float_of_str_raises in Hd as [msg ->]. reflexivity.
Qed.

Lemma line_clean_events (line : str) :
  line_clean line = true ->
  ∃ events, line_events DEFAULT_TICKS_PER_BEAT line = Ok events.
Proof.
  unfold line_clean. intros H.
  destruct (Py.split (Py.strip line)) as [|notes_part [|duration_str rest]] eqn:Hs;
    [exists []; apply short_line_skipped; rewrite Hs; simpl; lia ..|].
  destruct (Py.float_of_str duration_str) as [duration|e] eqn:Hd;
    [|exists []; eapply bad_duration_skipped; eauto].
  cbv zeta in H.
  apply andb_prop in H as [H Hn]. apply andb_prop in H as [Hv Hf].
  rewrite (line_events_parsed _ _ _ _ _ _ Hs Hd).
  destruct (velocity_of rest) as [velocity|]; [|discriminate].
  rewrite bind_Ok. unfold duration_ticks.
  change (Py.float_of_int DEFAULT_TICKS_PER_BEAT)
    with (Ok (A := Py.float) (Py.round_to_float DEFAULT_TICKS_PER_BEAT 0)).
  rewrite bind_Ok.
  destruct (int_of_float_finite _ Hf) as [t ->]. rewrite bind_Ok.
  rewrite (resolve_notes_omap _ (no_rest_misspelt _ Hn)), bind_Ok.
  rewrite chord_events_checked, Hv. eauto.
Qed.

Lemma compile_lines_Forall2 (tpb : Z) (lines : list str) (track track' : MidiTrack) :
  compile_lines tpb lines track = Ok track' <->
  ∃ events,
    Forall2 (fun line evs => line_events tpb line = Ok evs) lines events ∧
    track' = track ++ concat events.
Proof.
  revert track. induction lines as [|l lines IH]; intros track; simpl.
  - split.
    + intros [= <-]. exists []. split; [constructor|]. simpl.
      rewrite app_nil_r. reflexivity.
    + intros (events & H & ->). inversion H; subst. simpl.
      rewrite app_nil_r. reflexivity.
  - split.
    + destruct (line_events tpb l) as [evs|] eqn:Hl; [|discriminate].
      rewrite bind_Ok. intros Hc. apply IH in Hc as (events & H & ->).
      exists (evs :: events). split; [constructor; assumption|].
      simpl. rewrite app_assoc. reflexivity.
    + intros (events & H & ->). inversion H as [|? evs ? events' Hl H']; subst.
      rewrite Hl, bind_Ok. apply IH. exists events'. split; [exact H'|].
      simpl. rewrite app_assoc. reflexivity.
Qed.

Lemma tempo_in_range_nonzero (bpm : Z) : tempo_in_range bpm -> bpm ≠ 0.
Proof. intros [H _]. exact H. Qed.

Lemma velocity_error_line
    (tpb : Z) (line notes_part duration_str : str) (rest : list str)
    (duration : Py.float) (e : exn) :
  Py.split (Py.strip line) = notes_part :: duration_str :: rest ->
  Py.float_of_str duration_str = Ok duration ->
  velocity_of rest = Raise e ->
  line_events tpb line = Raise e.
Proof.
  intros Hs Hd Hv. rewrite (line_events_parsed _ _ _ _ _ _ Hs Hd), Hv. reflexivity.
Qed.

(** C9: for a tempo that is not zero and converts to a float: a token
    whose resolution raises [ValueError] is dropped; a line with fewer than
    two fields, or whose duration field is no float, gives no event; an
    error of the velocity field is not swallowed, the compile raises it
    when the lines before compile; and the compile returns a stream, the
    program change and then the events of the lines, when every line is
    skipped or has a velocity field that is an integer literal, a finite
    tick product, no rest spelled otherwise than [R], and, if its chord has
    a key, keys and a velocity from 0 to 127. *)
Theorem compile_error_policy (text : str) (bpm : Z) :
  tempo_in_range bpm ->
  (∀ (n : str) (notes : list str) (keys : list Z) (msg : str),
     note_to_midi n = Raise (ValueError msg) ->
     resolve_notes (n :: notes) keys = resolve_notes notes keys) ∧
  (∀ line : str,
     (length (Py.split (Py.strip line)) < 2)%nat ∨
     (∃ notes_part duration_str rest e,
        Py.split (Py.strip line) = notes_part :: duration_str :: rest ∧
        Py.float_of_str duration_str = Raise e) ->
     line_events DEFAULT_TICKS_PER_BEAT line = Ok []) ∧
  (∀ (pre : list str) (line : str) (post : list str)
     (notes_part duration_str : str) (rest : list str)
     (duration : Py.float) (e : exn),
     Py.splitlines (Py.strip text) = pre ++ line :: post ->
     Forall (fun l => ∃ events, line_events DEFAULT_TICKS_PER_BEAT l = Ok events) pre ->
     Py.split (Py.strip line) = notes_part :: duration_str :: rest ->
     Py.float_of_str duration_str = Ok duration ->
     velocity_of rest = Raise e ->
     parse_text_to_midi text bpm = Raise e) ∧
  (forallb line_clean (Py.splitlines (Py.strip text)) = true ->
   ∃ events,
     Forall2 (fun line evs => line_events DEFAULT_TICKS_PER_BEAT line = Ok evs)
             (Py.splitlines (Py.strip text)) events ∧
     parse_text_to_midi text bpm =
       Ok (mkMidiFile DEFAULT_TICKS_PER_BEAT [program_change 0 0 :: concat events])).
Proof.
  intros Hbpm. apply tempo_in_range_nonzero in Hbpm.
  rewrite (parse_text_to_midi_nonzero text bpm Hbpm).
  split; [|split; [|split]].
  - intros n notes keys msg. apply token_error_swallowed.
  - intros line [H | (notes_part & duration_str & rest & e & Hs & Hd)].
    + apply short_line_skipped, H.
    + eapply bad_duration_skipped; eauto.
  - intros pre line post notes_part duration_str rest duration e Hl Hpre Hs Hd Hv.
    rewrite Hl.
    rewrite (compile_lines_abort _ _ _ _ _ _ Hpre
               (velocity_error_line _ _ _ _ _ _ _ Hs Hd Hv)).
    reflexivity.
  - intros Hclean.
    destruct (compile_lines_total DEFAULT_TICKS_PER_BEAT
                (Py.splitlines (Py.strip text)) [program_change 0 0]) as [track Hc].
    + apply Forall_forall. intros l Hl. apply line_clean_events.
      rewrite forallb_forall in Hclean. apply Hclean, list_elem_of_In, Hl.
    + rewrite Hc, bind_Ok.
      apply compile_lines_Forall2 in Hc as (events & H & ->).
      exists events. split; [exact H | reflexivity].
Qed.

Lemma compile_error_policy_witness :
  parse_text_to_midi (pystr "C4 1.0" ++ "010"%char :: pystr "C4 1.0 loud") 90 =
    Raise (ValueError (pystr "invalid literal for int() with base 10: 'loud'")) ∧
  ∃ events,
    Forall2 (fun line evs => line_events DEFAULT_TICKS_PER_BEAT line = Ok evs)
            (Py.splitlines (Py.strip score_example)) events ∧
    parse_text_to_midi score_example 90 =
      Ok (mkMidiFile DEFAULT_TICKS_PER_BEAT [program_change 0 0 :: concat events]).
Proof.
  split.
  - refine (proj1 (proj2 (proj2
      (compile_error_policy
         (pystr "C4 1.0" ++ "010"%char :: pystr "C4 1.0 loud") 90 _)))
      [pystr "C4 1.0"] (pystr "C4 1.0 loud") []
      (pystr "C4") (pystr "1.0") [pystr "loud"]
      (S754_finite false 4503599627370496 (-52)) _ _ _ _ _ _).
    + split; [discriminate | vm_compute; reflexivity].
    + vm_compute. reflexivity.
    + constructor; [|constructor].
      exists [note_on 60 64 0; note_off 60 64 480]. vm_compute. reflexivity.
    + vm_compute. reflexivity.
    + vm_compute. reflexivity.
    + vm_compute. reflexivity.
  - refine (proj2 (proj2 (proj2 (compile_error_policy score_example 90 _))) _).
    + split; [discriminate | vm_compute; reflexivity].
    + vm_compute. reflexivity.
Defined.

Lemma swallowed_examples :
  resolve_notes [pystr "H4"; pystr "C4"; pystr "x"] [] = Ok [60] ∧
  line_events 480 (pystr "only") = Ok [] ∧
  line_events 480 (pystr "C4 fast") = Ok [] ∧
  line_events 480 (pystr "C4,H4,x 1.0") = Ok [note_on 60 64 0; note_off 60 64 480].
Proof. repeat split; vm_compute; reflexivity. Qed.

Lemma compile_score_example :
  parse_text_to_midi score_example 90 =
    Ok (mkMidiFile 480
          [[program_change 0 0; note_on 60 64 0; note_off 60 64 480;
            note_off 0 0 240]]).
Proof. vm_compute. reflexivity. Qed.

(** A text whose first line is well formed and whose second line has a
    velocity field that is no integer: the error reaches the caller.  So
    does the error of a duration that is not finite. *)
Lemma velocity_error_propagates :
  line_events DEFAULT_TICKS_PER_BEAT (pystr "C4 1.0") =
    Ok [note_on 60 64 0; note_off 60 64 480] ∧
  parse_text_to_midi (pystr "C4 1.0" ++ "010"%char :: pystr "C4 1.0 loud") 90 =
    Raise (ValueError (pystr "invalid literal for int() with base 10: 'loud'")) ∧
  ¬ (∃ midi,
       parse_text_to_midi (pystr "C4 1.0" ++ "010"%char :: pystr "C4 1.0 loud") 90 =
         Ok midi).
Proof.
  repeat split; try (vm_compute; reflexivity).
  intros [midi H]. vm_compute in H. discriminate H.
Qed.

Lemma duration_error_propagates :
  parse_text_to_midi (pystr "C4 nan") 90 =
    Raise (ValueError (pystr "cannot convert float NaN to integer")) ∧
  parse_text_to_midi (pystr "C4 1e999") 90 =
    Raise (OverflowError (pystr "cannot convert float infinity to integer")).
Proof. split; vm_compute; reflexivity. Qed.

(** *** The tempo *)

Lemma line_events_no_tempo (tpb : Z) (line : str) (events : list Message) :
  line_events tpb line = Ok events ->
  Forall (fun m => is_set_tempo m = false) events.
Proof.
  unfold line_events.
  destruct (negb _); [intros [= <-]; constructor|].
  destruct (Py.split _) as [|notes_part [|duration_str rest]];
    try (intros [= <-]; constructor).
  destruct (Py.float_of_str duration_str) as [duration|[]];
    try discriminate; try (intros [= <-]; constructor).
  destruct (velocity_of rest) as [velocity|]; [|discriminate].
  rewrite bind_Ok.
  destruct (duration_ticks tpb duration) as [ticks|]; [|discriminate].
  rewrite bind_Ok.
  destruct (resolve_notes _ _) as [keys|]; [|discriminate].
  rewrite bind_Ok. intros Hc. apply chord_events_Ok in Hc as [_ ->].
  apply chord_messages_no_tempo.
Qed.

(** The loop only appends, and what it appends is no tempo message. *)
Lemma compile_lines_appends
    (tpb : Z) (lines : list str) (track track' : MidiTrack) :
  compile_lines tpb lines track = Ok track' ->
  ∃ events,
    track' = track ++ events ∧
    Forall (fun m => is_set_tempo m = false) events.
Proof.
  revert track. induction lines as [|l lines IH]; intros track; simpl.
  - intros [= <-]. exists []. split; [symmetry; apply app_nil_r | constructor].
  - destruct (line_events tpb l) as [events|] eqn:Hl; [|discriminate].
    rewrite bind_Ok. intros Hc.
    destruct (IH _ Hc) as (events' & -> & Hev).
    exists (events ++ events'). split; [symmetry; apply app_assoc|].
    apply Forall_app. split; [|exact Hev].
    eapply line_events_no_tempo, Hl.
Qed.

(** C1: the stream a compile returns has one track, which starts with the
    program change, and no event after it is a tempo meta message, whatever
    the tempo argument: the value [bpm2tempo] gives is dropped. *)
Theorem tempo_event_missing (text : str) (bpm : Z) (midi : MidiFile) :
  parse_text_to_midi text bpm = Ok midi ->
  ∃ events,
    tracks midi = [program_change 0 0 :: events] ∧
    Forall (fun m => is_set_tempo m = false) events.
Proof.
  unfold parse_text_to_midi.
  destruct (bpm2tempo bpm) as [tempo|]; [|discriminate].
  cbv zeta. rewrite bind_Ok, new_program_change_0, bind_Ok.
  destruct (compile_lines _ _ _) as [track|] eqn:Hc; [|discriminate].
  rewrite bind_Ok. intros [= <-].
  destruct (compile_lines_appends _ _ _ _ Hc) as (events & -> & Hev).
  exists events. split; [reflexivity | exact Hev].
Qed.

Lemma tempo_event_missing_witness :
  ∃ events,
    tracks (mkMidiFile 480 [[program_change 0 0; note_on 60 64 0; note_off 60 64 480]])
      = [program_change 0 0 :: events] ∧
    Forall (fun m => is_set_tempo m = false) events.
Proof.
  apply (tempo_event_missing (pystr "C4 1.0") 90). vm_compute. reflexivity.
Defined.

(** At 90 beats per minute the conversion gives 666667 microseconds per
    beat, and the track holds the program change and the notes only. *)
Lemma tempo_90_dropped :
  bpm2tempo 90 = Ok 666667 ∧
  parse_text_to_midi (pystr "C4 1.0") 90 =
    Ok (mkMidiFile 480 [[program_change 0 0; note_on 60 64 0; note_off 60 64 480]]).
Proof. split; vm_compute; reflexivity. Qed.

(** * Further properties *)

(** ** The note resolver *)

Lemma note_map_entries (pitch : str) (offset : Z) :
  note_map !! pitch = Some offset -> (pitch, offset) ∈ note_table.
Proof.
  intros H. apply (elem_of_list_to_map_2 note_table). exact H.
Qed.

Ltac note_cases H :=
  apply note_map_entries, list_elem_of_In in H; simpl in H;
  repeat destruct H as [H | H]; [simplify_eq ..|destruct H].

Lemma note_map_offset_range (pitch : str) (offset : Z) :
  note_map !! pitch = Some offset -> 0 <= offset <= 11.
Proof.
  intros H. note_cases H; lia.
Qed.

Lemma note_map_injective (pitch1 pitch2 : str) (offset : Z) :
  note_map !! pitch1 = Some offset -> note_map !! pitch2 = Some offset ->
  pitch1 = pitch2.
Proof.
  intros H1 H2. note_cases H1; note_cases H2; reflexivity.
Qed.

Lemma digit_value_range (d : ascii) :
  Py.isdigit d = true -> 0 <= Py.digit_value d <= 9 ∧ digit_char (Py.digit_value d) = d.
Proof.
  intros H. apply digit_cases in H. list_cases H; vm_compute; repeat split; congruence.
Qed.

(** What a pitched result of the resolver comes from. *)
Lemma normalize_pitched (token full_pitch : str) (octave : Z) :
  normalize_note_name token = Ok (full_pitch, Some octave) ->
  ∃ p acc d offset,
    Py.upper (Py.strip token) = p :: acc ++ [d] ∧
    Re.is_pitch_letter p = true ∧
    acc ∈ [pystr ""; pystr "#"; pystr "B"] ∧
    Py.isdigit d = true ∧
    octave = Py.digit_value d ∧
    note_map !! full_pitch = Some offset.
Proof.
  intros H.
  destruct (decide (is_rest_spelling token)) as [Hr | Hr].
  { rewrite (normalize_rest _ Hr) in H. discriminate. }
  rewrite (normalize_not_rest _ Hr) in H. cbv zeta in H.
  destruct (Re.match_note _) as [g|] eqn:Hm; [|discriminate].
  destruct (match_note_Some _ _ Hm (upper_strip_last token))
    as (p & acc & d & Hup & -> & Hp & Hacc & Hd).
  cbv beta iota in H.
  destruct (if bool_decide (acc = pystr "B") then _ else _) as [pitch' acc'].
  rewrite (int_of_digit d Hd), bind_Ok in H.
  destruct (bool_decide (is_Some (note_map !! (pitch' ++ acc')))) eqn:Hin;
    [|discriminate].
  injection H as <- <-.
  apply bool_decide_eq_true_1 in Hin as [offset Hoff].
  exists p, acc, d, offset. repeat split; auto.
Qed.

(** The three ways [note_to_midi] returns. *)
Lemma note_to_midi_Some (token : str) (key : Z) :
  note_to_midi token = Ok (Some key) ->
  ∃ full_pitch octave offset,
    normalize_note_name token = Ok (full_pitch, Some octave) ∧
    note_map !! full_pitch = Some offset ∧
    key = 12 + offset + 12 * octave.
Proof.
  intros H.
  destruct (decide (token = pystr "R")) as [-> | Hne]; [discriminate|].
  unfold note_to_midi in H. rewrite (bool_decide_eq_false_2 _ Hne) in H.
  destruct (normalize_cases token)
    as [[_ Hn] | [_ [[msg Hn] | (fp & o & off & Hn & Hoff)]]];
    rewrite Hn in H; try discriminate.
  rewrite bind_Ok in H. cbv beta iota in H.
  unfold note_map_get in H. rewrite Hoff, bind_Ok in H.
  injection H as <-. exists fp, o, off. auto.
Qed.

(** X1: every key the resolver produces lies between 12 and 131; nothing
    caps it at 127. *)
Theorem key_bounds (token : str) (key : Z) :
  note_to_midi token = Ok (Some key) -> 12 <= key <= 131.
Proof.
  intros H.
  destruct (note_to_midi_Some _ _ H) as (fp & o & off & Hn & Hoff & ->).
  destruct (normalize_pitched _ _ _ Hn) as (p & acc & d & off' & _ & _ & _ & Hd & -> & _).
  pose proof (note_map_offset_range _ _ Hoff).
  destruct (digit_value_range d Hd) as [? _]. lia.
Qed.

Lemma key_bounds_witness : 12 <= 131 <= 131.
Proof.
  apply (key_bounds (pystr "B9") 131). vm_compute. reflexivity.
Defined.

Lemma key_bounds_reached :
  note_to_midi (pystr "C0") = Ok (Some 12) ∧
  note_to_midi (pystr "G9") = Ok (Some 127) ∧
  note_to_midi (pystr "G#9") = Ok (Some 128) ∧
  note_to_midi (pystr "B9") = Ok (Some 131).
Proof. repeat split; vm_compute; reflexivity. Qed.

(** X2: what the resolver returns for a pitched token is a spelling of the
    pitch table and an octave from 0 to 9, and that spelling followed by the
    octave resolves to itself. *)
Theorem normalize_canonical (token full_pitch : str) (octave : Z) :
  normalize_note_name token = Ok (full_pitch, Some octave) ->
  is_Some (note_map !! full_pitch) ∧
  0 <= octave <= 9 ∧
  normalize_note_name (full_pitch ++ [digit_char octave]) = Ok (full_pitch, Some octave).
Proof.
  intros H.
  destruct (normalize_pitched _ _ _ H) as (p & acc & d & off & _ & _ & _ & Hd & -> & Hoff).
  destruct (digit_value_range d Hd) as [Hrange ->].
  split; [eauto|]. split; [exact Hrange|].
  clear H Hrange. apply digit_cases in Hd.
  note_cases Hoff; list_cases Hd; vm_compute; reflexivity.
Qed.

Lemma normalize_canonical_witness :
  is_Some (note_map !! pystr "A#") ∧
  0 <= 3 <= 9 ∧
  normalize_note_name (pystr "A#" ++ [digit_char 3]) = Ok (pystr "A#", Some 3).
Proof.
  apply (normalize_canonical (pystr " bb3 ")). vm_compute. reflexivity.
Defined.

(** X3: the key determines the note: two tokens with the same key resolve to
    the same pitch and octave. *)
Theorem key_determines_note (token1 token2 : str) (key : Z) :
  note_to_midi token1 = Ok (Some key) ->
  note_to_midi token2 = Ok (Some key) ->
  normalize_note_name token1 = normalize_note_name token2.
Proof.
  intros H1 H2.
  destruct (note_to_midi_Some _ _ H1) as (fp1 & o1 & off1 & Hn1 & Hoff1 & Hk1).
  destruct (note_to_midi_Some _ _ H2) as (fp2 & o2 & off2 & Hn2 & Hoff2 & Hk2).
  pose proof (note_map_offset_range _ _ Hoff1).
  pose proof (note_map_offset_range _ _ Hoff2).
  assert (o1 = o2) by lia. assert (off1 = off2) by lia. subst.
  rewrite Hn1, Hn2, (note_map_injective _ _ _ Hoff1 Hoff2). reflexivity.
Qed.

Lemma key_determines_note_witness :
  normalize_note_name (pystr "Db4") = normalize_note_name (pystr " c#4").
Proof.
  apply (key_determines_note (pystr "Db4") (pystr " c#4") 61);
    vm_compute; reflexivity.
Defined.

(** X4: [note_to_midi] returns [None] for the exact string [R] and for no
    other token. *)
Theorem rest_is_exactly_R (token : str) :
  note_to_midi token = Ok None <-> token = pystr "R".
Proof.
  split; [|intros ->; reflexivity].
  intros H. destruct (decide (token = pystr "R")) as [-> | Hne]; [reflexivity|].
  exfalso. unfold note_to_midi in H. rewrite (bool_decide_eq_false_2 _ Hne) in H.
  destruct (normalize_cases token)
    as [[_ Hn] | [_ [[msg Hn] | (fp & o & off & Hn & Hoff)]]];
    rewrite Hn in H; try discriminate.
  rewrite bind_Ok in H. cbv beta iota in H.
  unfold note_map_get in H. rewrite Hoff in H. discriminate.
Qed.

(** X5: a sharp raises the key of the natural note by one semitone and a
    flat lowers it by one, with three exceptions at the ends of the table:
    E# and B# are rejected, and C-flat resolves to B with the same octave
    digit, eleven semitones above C. *)
Theorem accidental_semitones (p d : ascii) :
  Re.is_pitch_letter p = true ->
  Py.isdigit d = true ->
  ∃ key,
    note_to_midi [p; d] = Ok (Some key) ∧
    note_to_midi [p; "#"%char; d] =
      (if bool_decide (p = "E"%char ∨ p = "B"%char)
       then Raise (invalid_after_normalization [p; "#"%char])
       else Ok (Some (key + 1))) ∧
    note_to_midi [p; "b"%char; d] =
      Ok (Some (if bool_decide (p = "C"%char) then key + 11 else key - 1)).
Proof.
  intros Hp Hd. apply pitch_letter_cases in Hp. apply digit_cases in Hd.
  list_cases Hp; list_cases Hd;
    (eexists; split; [vm_compute; reflexivity|]; split; vm_compute; reflexivity).
Qed.

Lemma accidental_semitones_witness :
  ∃ key,
    note_to_midi (pystr "C4") = Ok (Some key) ∧
    note_to_midi (pystr "C#4") =
      (if bool_decide ("C"%char = "E"%char ∨ "C"%char = "B"%char)
       then Raise (invalid_after_normalization (pystr "C#"))
       else Ok (Some (key + 1))) ∧
    note_to_midi (pystr "Cb4") =
      Ok (Some (if bool_decide ("C"%char = "C"%char) then key + 11 else key - 1)).
Proof.
  apply (accidental_semitones "C" "4"); reflexivity.
Defined.

Lemma c_flat_example :
  note_to_midi (pystr "C4") = Ok (Some 60) ∧
  note_to_midi (pystr "Cb4") = Ok (Some 71) ∧
  note_to_midi (pystr "B3") = Ok (Some 59).
Proof. repeat split; vm_compute; reflexivity. Qed.

(** *** Letter case and surrounding whitespace *)

Lemma lstrip_fmap (f : ascii -> ascii) (s : str) :
  (∀ c, Py.isspace (f c) = Py.isspace c) ->
  Py.lstrip (f <$> s) = f <$> Py.lstrip s.
Proof.
  intros Hf. induction s as [|c s IH]; [reflexivity|].
  csimpl. rewrite Hf. destruct (Py.isspace c); [exact IH | reflexivity].
Qed.

Lemma strip_fmap (f : ascii -> ascii) (s : str) :
  (∀ c, Py.isspace (f c) = Py.isspace c) ->
  Py.strip (f <$> s) = f <$> Py.strip s.
Proof.
  intros Hf. unfold Py.strip, Py.rstrip.
  rewrite (lstrip_fmap f s Hf), <- fmap_reverse, (lstrip_fmap f _ Hf), fmap_reverse.
  reflexivity.
Qed.

Lemma lower_char_space (c : ascii) :
  Py.isspace (Py.lower_char c) = Py.isspace c.
Proof.
  destruct c as [[] [] [] [] [] [] [] []]; reflexivity.
Qed.

Lemma upper_upper_char (c : ascii) :
  Py.upper_char (Py.upper_char c) = Py.upper_char c.
Proof.
  destruct c as [[] [] [] [] [] [] [] []]; reflexivity.
Qed.

Lemma upper_lower_char (c : ascii) :
  Py.upper_char (Py.lower_char c) = Py.upper_char c.
Proof.
  destruct c as [[] [] [] [] [] [] [] []]; reflexivity.
Qed.

Lemma upper_strip_upper (s : str) :
  Py.upper (Py.strip (Py.upper s)) = Py.upper (Py.strip s).
Proof.
  unfold Py.upper. rewrite (strip_fmap _ _ upper_char_space), <- list_fmap_compose.
  apply list_fmap_ext. intros _ c _. apply upper_upper_char.
Qed.

Lemma upper_strip_lower (s : str) :
  Py.upper (Py.strip (Py.lower s)) = Py.upper (Py.strip s).
Proof.
  unfold Py.upper, Py.lower.
  rewrite (strip_fmap _ _ lower_char_space), <- list_fmap_compose.
  apply list_fmap_ext. intros _ c _. apply upper_lower_char.
Qed.

(** The resolver looks at its argument trimmed and uppercased only. *)
Lemma normalize_ext (token1 token2 : str) :
  Py.upper (Py.strip token1) = Py.upper (Py.strip token2) ->
  normalize_note_name token1 = normalize_note_name token2.
Proof.
  intros H. unfold normalize_note_name. rewrite H. reflexivity.
Qed.

(** X6: the resolver ignores the letter case of its argument. *)
Theorem normalize_ignores_case (token : str) :
  normalize_note_name (Py.upper token) = normalize_note_name token ∧
  normalize_note_name (Py.lower token) = normalize_note_name token.
Proof.
  split; apply normalize_ext; [apply upper_strip_upper | apply upper_strip_lower].
Qed.

Lemma forallb_reverse (ws : str) :
  forallb Py.isspace ws = true -> forallb Py.isspace (reverse ws) = true.
Proof.
  rewrite !forallb_forall. intros H c Hc. apply H.
  apply list_elem_of_In. apply list_elem_of_In in Hc.
  rewrite elem_of_reverse in Hc. exact Hc.
Qed.

Lemma lstrip_all_space (ws : str) :
  forallb Py.isspace ws = true -> Py.lstrip ws = [].
Proof.
  intros H. rewrite <- (app_nil_r ws). apply (lstrip_spaces ws [] H).
Qed.

Lemma rstrip_spaces (s ws : str) :
  forallb Py.isspace ws = true -> Py.rstrip (s ++ ws) = Py.rstrip s.
Proof.
  intros H. unfold Py.rstrip.
  rewrite reverse_app, (lstrip_spaces _ _ (forallb_reverse ws H)). reflexivity.
Qed.

Lemma lstrip_app_spaces (s ws : str) :
  forallb Py.isspace ws = true ->
  (Py.lstrip s = [] ∧ Py.lstrip (s ++ ws) = []) ∨
  Py.lstrip (s ++ ws) = Py.lstrip s ++ ws.
Proof.
  intros H. induction s as [|c s IH]; simpl.
  - left. split; [reflexivity | apply lstrip_all_space, H].
  - destruct (Py.isspace c); [exact IH | right; reflexivity].
Qed.

(** Whitespace around a string is what [strip] removes. *)
Lemma strip_surrounded (ws1 ws2 s : str) :
  forallb Py.isspace ws1 = true ->
  forallb Py.isspace ws2 = true ->
  Py.strip (ws1 ++ s ++ ws2) = Py.strip s.
Proof.
  intros H1 H2. unfold Py.strip. rewrite (lstrip_spaces ws1 _ H1).
  destruct (lstrip_app_spaces s ws2 H2) as [[-> ->] | ->]; [reflexivity|].
  apply rstrip_spaces, H2.
Qed.

(** X7: the resolver ignores whitespace around its argument. *)
Theorem normalize_ignores_padding (ws1 ws2 token : str) :
  forallb Py.isspace ws1 = true ->
  forallb Py.isspace ws2 = true ->
  normalize_note_name (ws1 ++ token ++ ws2) = normalize_note_name token.
Proof.
  intros H1 H2. apply normalize_ext. rewrite (strip_surrounded _ _ _ H1 H2).
  reflexivity.
Qed.

Lemma normalize_ignores_padding_witness :
  normalize_note_name (pystr "  " ++ pystr "Eb2" ++ ["009"%char]) =
    normalize_note_name (pystr "Eb2").
Proof.
  apply normalize_ignores_padding; reflexivity.
Defined.

(** ** The score compiler *)

(** X8: the stream does not depend on the tempo: two tempos that are not
    zero and convert to a float give the same result for the same text. *)
Theorem tempo_has_no_effect (text : str) (bpm1 bpm2 : Z) :
  tempo_in_range bpm1 -> tempo_in_range bpm2 ->
  parse_text_to_midi text bpm1 = parse_text_to_midi text bpm2.
Proof.
  intros [H1 _] [H2 _].
  rewrite (parse_text_to_midi_nonzero text bpm1 H1).
  rewrite (parse_text_to_midi_nonzero text bpm2 H2). reflexivity.
Qed.

Lemma tempo_has_no_effect_witness :
  parse_text_to_midi (pystr "C4 1.0") 60 = parse_text_to_midi (pystr "C4 1.0") 180.
Proof.
  apply tempo_has_no_effect; (split; [discriminate | vm_compute; reflexivity]).
Defined.

(** A line is looked at trimmed only. *)
Lemma line_events_ext (tpb : Z) (line1 line2 : str) :
  Py.strip line1 = Py.strip line2 ->
  line_events tpb line1 = line_events tpb line2.
Proof.
  intros H. unfold line_events. rewrite H. reflexivity.
Qed.

(** X9: whitespace before and after a line, and before and after the whole
    text, changes nothing. *)
Theorem compile_ignores_padding (ws1 ws2 : str) :
  forallb Py.isspace ws1 = true ->
  forallb Py.isspace ws2 = true ->
  (∀ tpb line, line_events tpb (ws1 ++ line ++ ws2) = line_events tpb line) ∧
  (∀ text bpm,
     parse_text_to_midi (ws1 ++ text ++ ws2) bpm = parse_text_to_midi text bpm).
Proof.
  intros H1 H2. split.
  - intros tpb line. apply line_events_ext, strip_surrounded; assumption.
  - intros text bpm. unfold parse_text_to_midi.
    rewrite (strip_surrounded _ _ _ H1 H2). reflexivity.
Qed.

Lemma compile_ignores_padding_witness :
  (∀ tpb line,
     line_events tpb (pystr "  " ++ line ++ ["009"%char]) = line_events tpb line) ∧
  (∀ text bpm,
     parse_text_to_midi (pystr "  " ++ text ++ ["009"%char]) bpm =
       parse_text_to_midi text bpm).
Proof.
  apply compile_ignores_padding; reflexivity.
Defined.

(** The test for a blank line is subsumed by the count of the fields. *)
Lemma line_events_fields (tpb : Z) (line : str) :
  line_events tpb line =
    match Py.split (Py.strip line) with
    | notes_part :: duration_str :: rest =>
        match Py.float_of_str duration_str with
        | Raise (ValueError _) => Ok []
        | Raise e => Raise e
        | Ok duration =>
            velocity ← velocity_of rest;
            ticks ← duration_ticks tpb duration;
            midi_notes ← resolve_notes (Py.strip <$> Py.split_comma notes_part) [];
            chord_events midi_notes velocity ticks
        end
    | _ => Ok []
    end.
Proof.
  unfold line_events. destruct (Py.strip line); reflexivity.
Qed.

(** X10: the events of a line depend on its first three fields only: the
    amount of whitespace between the fields and any further field are
    ignored. *)
Theorem line_first_three_fields (tpb : Z) (line1 line2 : str) :
  take 3 (Py.split (Py.strip line1)) = take 3 (Py.split (Py.strip line2)) ->
  line_events tpb line1 = line_events tpb line2.
Proof.
  intros H. rewrite !line_events_fields.
  destruct (Py.split (Py.strip line1)) as [|a1 [|b1 r1]];
    destruct (Py.split (Py.strip line2)) as [|a2 [|b2 r2]];
    try discriminate; try reflexivity.
  assert (Hv : velocity_of r1 = velocity_of r2).
  { destruct r1, r2; simpl in H; try discriminate; [reflexivity|].
    injection H as _ _ ->. reflexivity. }
  simpl in H. injection H as -> ->. rewrite Hv. reflexivity.
Qed.

Lemma line_first_three_fields_witness :
  line_events 480 (pystr "C4,E4 1.5 90 and more") =
    line_events 480 (pystr " C4,E4   1.5" ++ "009"%char :: pystr "90").
Proof.
  apply line_first_three_fields. vm_compute. reflexivity.
Defined.

(** *** The loop over the tokens *)

(** X11: when no token of a chord is a rest spelled otherwise than [R], the
    keys of the chord are those of the tokens that resolve, in the order of
    the tokens and with their repetitions; the other tokens are dropped. *)
Theorem chord_keys_in_order (notes : list str) :
  Forall (fun n => ¬ rest_misspelt n) notes ->
  resolve_notes notes [] = Ok (omap key_of notes).
Proof.
  intros H.
  enough (E : ∀ acc, resolve_notes notes acc = Ok (acc ++ omap key_of notes))
    by exact (E []).
  induction H as [|n notes Hn _ IH]; intros acc; simpl.
  - rewrite app_nil_r. reflexivity.
  - unfold key_of.
    destruct (note_to_midi_cases n)
      as [E | [[key E] | [[msg E] | (Hne & Hr & _)]]];
      [rewrite E, IH; reflexivity
      |rewrite E, IH, <- app_assoc; reflexivity
      |rewrite E, IH; reflexivity
      |exfalso; apply Hn; split; assumption].
Qed.

Lemma chord_keys_in_order_witness :
  resolve_notes [pystr "E4"; pystr "x"; pystr "C4"; pystr ""; pystr "E4"; pystr "R"] [] =
    Ok (omap key_of [pystr "E4"; pystr "x"; pystr "C4"; pystr ""; pystr "E4"; pystr "R"]).
Proof.
  apply chord_keys_in_order.
  repeat constructor; apply (bool_decide_eq_false_1 (rest_misspelt _)); reflexivity.
Defined.

Lemma chord_keys_example :
  omap key_of [pystr "E4"; pystr "x"; pystr "C4"; pystr ""; pystr "E4"; pystr "R"] =
    [64; 60; 64].
Proof. vm_compute. reflexivity. Qed.

(** *** The track as a whole *)

(** X12: for a tempo that is not zero and converts to a float, a compile
    returns exactly when every line gives its events, and the track is then
    the program change followed by the events of the lines, line after
    line. *)
Theorem track_is_lines_in_order (text : str) (bpm : Z) (midi : MidiFile) :
  tempo_in_range bpm ->
  parse_text_to_midi text bpm = Ok midi <->
  ∃ events,
    Forall2 (fun line evs => line_events DEFAULT_TICKS_PER_BEAT line = Ok evs)
            (Py.splitlines (Py.strip text)) events ∧
    midi = mkMidiFile DEFAULT_TICKS_PER_BEAT [program_change 0 0 :: concat events].
Proof.
  intros [Hbpm _]. rewrite (parse_text_to_midi_nonzero text bpm Hbpm). split.
  - destruct (compile_lines _ _ _) as [track|] eqn:Hc; [|discriminate].
    rewrite bind_Ok. intros [= <-].
    apply compile_lines_Forall2 in Hc as (events & H & ->).
    exists events. split; [exact H | reflexivity].
  - intros (events & H & ->).
    assert (Hc : compile_lines DEFAULT_TICKS_PER_BEAT (Py.splitlines (Py.strip text))
                   [program_change 0 0] = Ok ([program_change 0 0] ++ concat events)).
    { apply compile_lines_Forall2. exists events. split; [exact H | reflexivity]. }
    rewrite Hc. reflexivity.
Qed.

Lemma track_is_lines_in_order_witness :
  parse_text_to_midi score_example 90 =
    Ok (mkMidiFile 480
          [[program_change 0 0; note_on 60 64 0; note_off 60 64 480; note_off 0 0 240]])
  <->
  ∃ events,
    Forall2 (fun line evs => line_events DEFAULT_TICKS_PER_BEAT line = Ok evs)
            (Py.splitlines (Py.strip score_example)) events ∧
    mkMidiFile 480
      [[program_change 0 0; note_on 60 64 0; note_off 60 64 480; note_off 0 0 240]] =
      mkMidiFile DEFAULT_TICKS_PER_BEAT [program_change 0 0 :: concat events].
Proof.
  apply (track_is_lines_in_order score_example 90).
  split; [discriminate | vm_compute; reflexivity].
Defined.

(** The keys of a chord lie between 12 and 131. *)
Lemma resolve_notes_keys (notes : list str) (midi_notes keys : list Z) :
  Forall (fun k => 12 <= k <= 131) midi_notes ->
  resolve_notes notes midi_notes = Ok keys ->
  Forall (fun k => 12 <= k <= 131) keys.
Proof.
  revert midi_notes. induction notes as [|n notes IH]; intros acc Hacc; simpl.
  - intros [= <-]. exact Hacc.
  - destruct (note_to_midi n) as [[key|]|[]] eqn:E; try discriminate; eauto.
    apply IH. apply Forall_app. split; [exact Hacc|]. constructor; [|constructor].
    destruct (note_to_midi_Some _ _ E) as (fp & o & off & Hn & Hoff & ->).
    destruct (normalize_pitched _ _ _ Hn)
      as (p & acc' & d & off' & _ & _ & _ & Hd & -> & _).
    pose proof (note_map_offset_range _ _ Hoff).
    destruct (digit_value_range d Hd) as [? _]. lia.
Qed.

(** What a line that compiles gives: nothing, or the events of a chord
    whose keys come from the pitch table and whose data bytes passed the
    check. *)
Lemma line_events_Ok (tpb : Z) (line : str) (events : list Message) :
  line_events tpb line = Ok events ->
  events = [] ∨
  ∃ keys velocity ticks,
    Forall (fun k => 12 <= k <= 131) keys ∧
    chord_ok keys velocity = true ∧
    events = chord_messages keys velocity ticks.
Proof.
  rewrite line_events_fields.
  destruct (Py.split _) as [|notes_part [|duration_str rest]];
    try (intros [= <-]; left; reflexivity).
  destruct (Py.float_of_str duration_str) as [duration|[]];
    try discriminate; try (intros [= <-]; left; reflexivity).
  destruct (velocity_of rest) as [velocity|]; [|discriminate].
  rewrite bind_Ok.
  destruct (duration_ticks tpb duration) as [ticks|]; [|discriminate].
  rewrite bind_Ok.
  destruct (resolve_notes _ _) as [keys|] eqn:Hk; [|discriminate].
  rewrite bind_Ok. intros Hc. apply chord_events_Ok in Hc as [Hok ->].
  right. exists keys, velocity, ticks. repeat split; [|exact Hok].
  eapply resolve_notes_keys; [constructor | exact Hk].
Qed.

(** The stream of a compile that returns. *)
Lemma parse_text_to_midi_Ok (text : str) (bpm : Z) (midi : MidiFile) :
  parse_text_to_midi text bpm = Ok midi ->
  ∃ events,
    Forall2 (fun line evs => line_events DEFAULT_TICKS_PER_BEAT line = Ok evs)
            (Py.splitlines (Py.strip text)) events ∧
    midi = mkMidiFile DEFAULT_TICKS_PER_BEAT [program_change 0 0 :: concat events].
Proof.
  unfold parse_text_to_midi.
  destruct (bpm2tempo bpm) as [tempo|]; [|discriminate].
  cbv zeta. rewrite bind_Ok, new_program_change_0, bind_Ok.
  destruct (compile_lines _ _ _) as [track'|] eqn:Hc; [|discriminate].
  rewrite bind_Ok. intros [= <-].
  apply compile_lines_Forall2 in Hc as (events & H & ->).
  exists events. split; [exact H | reflexivity].
Qed.

Lemma play_app (l1 l2 : list Message) (sounding : list Z) :
  play (l1 ++ l2) sounding = (sounding' ← play l1 sounding; play l2 sounding').
Proof.
  revert sounding. induction l1 as [|m l1 IH]; intros sounding; [reflexivity|].
  destruct m as [? ?|key ? ?|key ? ?|? ?]; cbn [app play]; auto.
  destruct (key =? 0); [apply IH|].
  destruct (release key sounding) as [sounding'|]; [|reflexivity].
  cbn. apply IH.
Qed.

Lemma play_key_downs (velocity : Z) (keys sounding : list Z) :
  play ((fun k => note_on k velocity 0) <$> keys) sounding = Some (sounding ++ keys).
Proof.
  revert sounding. induction keys as [|k keys IH]; intros sounding; csimpl.
  - rewrite app_nil_r. reflexivity.
  - rewrite IH, <- app_assoc. reflexivity.
Qed.

Lemma play_key_up (key velocity time : Z) (events : list Message) (sounding : list Z) :
  12 <= key ->
  play (note_off key velocity time :: events) (key :: sounding) = play events sounding.
Proof.
  intros Hk. cbn [play release].
  destruct (Z.eqb_spec key 0); [lia|]. rewrite Z.eqb_refl. reflexivity.
Qed.

Lemma play_key_ups (velocity : Z) (keys : list Z) :
  Forall (fun k => 12 <= k <= 131) keys ->
  play ((fun k => note_off k velocity 0) <$> keys) keys = Some [].
Proof.
  intros H. induction H as [|k keys Hk _ IH]; [reflexivity|].
  rewrite fmap_cons, play_key_up by lia. exact IH.
Qed.

(** The events of a chord start and end in silence. *)
Lemma chord_messages_play (keys : list Z) (velocity ticks : Z) :
  Forall (fun k => 12 <= k <= 131) keys ->
  play (chord_messages keys velocity ticks) [] = Some [].
Proof.
  intros Hk. destruct keys as [|key keys]; [reflexivity|].
  rewrite chord_messages_cons, play_app, play_key_downs.
  inversion Hk as [|? ? Hkey Hkeys]; subst.
  cbn [app mbind option_bind]. rewrite play_key_up by lia.
  apply play_key_ups, Hkeys.
Qed.

Lemma line_events_play (tpb : Z) (line : str) (events : list Message) :
  line_events tpb line = Ok events -> play events [] = Some [].
Proof.
  intros H.
  destruct (line_events_Ok _ _ _ H) as [-> | (keys & velocity & ticks & Hk & _ & ->)];
    [reflexivity|].
  apply chord_messages_play, Hk.
Qed.

(** X13: no key is left sounding, and no key-up comes before its key-down:
    played from silence, event after event in the order of the track, the
    track of a compile finds at every key-up (the key-0 event of a rest
    apart) its key sounding, and ends in silence. *)
Theorem no_stuck_notes (text : str) (bpm : Z) (midi : MidiFile) (track : MidiTrack) :
  parse_text_to_midi text bpm = Ok midi ->
  track ∈ tracks midi ->
  play track [] = Some [].
Proof.
  intros H Hin. apply parse_text_to_midi_Ok in H as (events & H & ->).
  apply list_elem_of_singleton in Hin as ->.
  cbn [play].
  induction H as [|l evs lines events Hl _ IH]; [reflexivity|].
  cbn [concat]. rewrite play_app, (line_events_play _ _ _ Hl). exact IH.
Qed.

Lemma no_stuck_notes_witness :
  play [program_change 0 0; note_on 60 100 0; note_on 64 100 0;
        note_off 60 100 960; note_off 64 100 0; note_off 0 0 480] [] = Some [].
Proof.
  apply (no_stuck_notes
           (pystr "C4,E4 2.0 100" ++ "010"%char :: pystr "R 1.0") 90
           (mkMidiFile 480
              [[program_change 0 0; note_on 60 100 0; note_on 64 100 0;
                note_off 60 100 960; note_off 64 100 0; note_off 0 0 480]])).
  - vm_compute. reflexivity.
  - constructor.
Defined.

(** A key-up before its key-down, and a key-down without key-up, are told
    apart from the tracks above. *)
Lemma play_examples :
  play [note_off 60 64 0; note_on 60 64 0] [] = None ∧
  play [note_on 60 64 0] [] = Some [60] ∧
  play [note_on 60 64 0; note_on 64 64 0; note_off 64 64 0; note_off 60 64 0] [] = Some [].
Proof. repeat split; reflexivity. Qed.

Lemma data_byte_range (value : Z) : data_byte value = true -> 0 <= value <= 127.
Proof. unfold data_byte. lia. Qed.

Lemma chord_messages_compiled (keys : list Z) (velocity ticks : Z) :
  Forall (fun k => 12 <= k <= 131) keys ->
  chord_ok keys velocity = true ->
  Forall compiled_event (chord_messages keys velocity ticks).
Proof.
  intros Hk Hok. destruct keys as [|key keys].
  { constructor; [left; split; reflexivity | constructor]. }
  unfold chord_ok in Hok. apply andb_prop in Hok as [Hb Hv].
  apply data_byte_range in Hv.
  assert (Hkeys : Forall (fun k => 12 <= k <= 127) (key :: keys)).
  { apply Forall_forall. intros k Hin.
    rewrite Forall_forall in Hk. specialize (Hk k Hin).
    rewrite forallb_forall in Hb. apply list_elem_of_In, Hb, data_byte_range in Hin.
    lia. }
  rewrite chord_messages_cons. inversion Hkeys as [|? ? Hkey Hkeys']; subst.
  apply Forall_app. split; [|constructor; [right; split; assumption|]];
    apply Forall_fmap; (eapply Forall_impl; [eassumption|]);
    intros k Hr; simpl; auto.
Qed.

Lemma line_events_compiled (tpb : Z) (line : str) (events : list Message) :
  line_events tpb line = Ok events -> Forall compiled_event events.
Proof.
  intros H.
  destruct (line_events_Ok _ _ _ H) as [-> | (keys & velocity & ticks & Hk & Hok & ->)];
    [constructor|].
  apply chord_messages_compiled; assumption.
Qed.

(** X14: every event of a compiled track is the program change, a key-down
    with delta-time 0, a key from 12 to 127 and a velocity from 0 to 127, a
    key-up with such a key and velocity, or the key-up of key 0 and
    velocity 0 that stands for a rest: the time advances at key-up events
    only. *)
Theorem track_events_shape (text : str) (bpm : Z) (midi : MidiFile) (track : MidiTrack) :
  parse_text_to_midi text bpm = Ok midi ->
  track ∈ tracks midi ->
  Forall compiled_event track.
Proof.
  intros H Hin. apply parse_text_to_midi_Ok in H as (events & H & ->).
  apply list_elem_of_singleton in Hin as ->.
  constructor; [split; reflexivity|].
  induction H as [|l evs lines events Hl _ IH]; [constructor|].
  cbn [concat]. apply Forall_app. split; [|exact IH].
  eapply line_events_compiled, Hl.
Qed.

Lemma track_events_shape_witness :
  Forall compiled_event
    [program_change 0 0; note_on 127 64 0; note_off 127 64 (-240); note_off 0 0 480].
Proof.
  apply (track_events_shape
           (pystr "G9 -0.5" ++ "010"%char :: pystr "R 1.0") 90
           (mkMidiFile 480
              [[program_change 0 0; note_on 127 64 0; note_off 127 64 (-240);
                note_off 0 0 480]])).
  - vm_compute. reflexivity.
  - constructor.
Defined.

(** The keys above 127 of the ninth octave never reach a track. *)
Lemma key_above_127_example :
  note_to_midi (pystr "G#9") = Ok (Some 128) ∧
  parse_text_to_midi (pystr "G#9 -0.5" ++ "010"%char :: pystr "R 1.0") 90 =
    Raise (ValueError (pystr "data byte must be in range 0..127")).
Proof. split; vm_compute; reflexivity. Qed.

(** *** The sign of the duration *)

Lemma binary_round_aux_sign (s : bool) (m e : Z) (l : location) :
  binary_round_aux Py.prec Py.emax s m e l = S754_nan ∨
  sign_bit (binary_round_aux Py.prec Py.emax s m e l) = s.
Proof.
  unfold binary_round_aux.
  destruct (shr_fexp _ _ m e l) as [mrs' e'].
  destruct (shr_fexp _ _ _ e' loc_Exact) as [mrs'' e''].
  destruct (shr_m mrs''); [right; reflexivity | | left; reflexivity].
  destruct (Z.leb _ _); right; reflexivity.
Qed.

Lemma float_of_int_positive (n : Z) (x : Py.float) :
  0 < n -> Py.float_of_int n = Ok x ->
  (x = S754_nan ∨ sign_bit x = false) ∧ ∀ s, x ≠ S754_infinity s.
Proof.
  intros Hn. unfold Py.float_of_int, Py.round_to_float, binary_normalize.
  destruct n as [|p|p]; try lia.
  unfold binary_round. destruct (shl_align _ _ _) as [mz ez].
  pose proof (binary_round_aux_sign false (Z.pos mz) ez loc_Exact) as Hs.
  destruct (binary_round_aux _ _ _ _ _ _) as [s | s | | s m e]; try discriminate;
    intros [= <-]; (split; [exact Hs | discriminate]).
Qed.

Lemma float_mul_sign (x d : Py.float) :
  sign_bit x = false -> (∀ s, x ≠ S754_infinity s) ->
  Py.float_mul x d = S754_nan ∨ sign_bit (Py.float_mul x d) = sign_bit d.
Proof.
  intros Hx Hinf. unfold Py.float_mul, SFmul.
  destruct x as [sx | sx | | sx mx ex]; simpl in Hx; subst;
    try (left; reflexivity); try (exfalso; eapply Hinf; reflexivity);
    destruct d as [sd | sd | | sd md ed];
    try (left; reflexivity); try (right; reflexivity).
  apply binary_round_aux_sign.
Qed.

Lemma int_of_float_sign (x : Py.float) (t : Z) :
  Py.int_of_float x = Ok t ->
  (sign_bit x = true -> t <= 0) ∧ (sign_bit x = false -> 0 <= t).
Proof.
  destruct x as [s | s | | s m e]; simpl; try discriminate.
  - intros [= <-]. split; lia.
  - intros [= <-].
    assert (Ha : 0 <= (if 0 <=? e then Z.pos m * 2 ^ e else Z.pos m / 2 ^ (- e))).
    { destruct (Z.leb_spec 0 e).
      - apply Z.mul_nonneg_nonneg; [lia | apply Z.pow_nonneg; lia].
      - apply Z.div_pos; [lia | apply Z.pow_pos_nonneg; lia]. }
    destruct s; split; intros; try discriminate; lia.
Qed.

(** X15: a negative duration is not rejected: for a positive resolution the
    tick count has the sign of the duration, so a duration below zero gives
    a delta-time that is zero or negative. *)
Theorem ticks_have_sign_of_duration (tpb : Z) (duration : Py.float) (ticks : Z) :
  0 < tpb ->
  duration_ticks tpb duration = Ok ticks ->
  (sign_bit duration = true -> ticks <= 0) ∧
  (sign_bit duration = false -> 0 <= ticks).
Proof.
  intros Htpb. unfold duration_ticks.
  destruct (Py.float_of_int tpb) as [x|] eqn:Hx; [|discriminate].
  rewrite bind_Ok. intros Ht.
  destruct (float_of_int_positive tpb x Htpb Hx) as [[-> | Hs] Hinf];
    [discriminate|].
  destruct (float_mul_sign x duration Hs Hinf) as [E | E].
  - rewrite E in Ht. discriminate.
  - rewrite <- E. apply int_of_float_sign, Ht.
Qed.

Lemma ticks_have_sign_of_duration_witness :
  (sign_bit (S754_finite true 4503599627370496 (-52)) = true -> -480 <= 0) ∧
  (sign_bit (S754_finite true 4503599627370496 (-52)) = false -> 0 <= -480).
Proof.
  apply (ticks_have_sign_of_duration 480).
  - lia.
  - vm_compute. reflexivity.
Defined.

Lemma negative_duration_example :
  Py.float_of_str (pystr "-1.0") = Ok (S754_finite true 4503599627370496 (-52)) ∧
  line_events 480 (pystr "C4 -1.0") = Ok [note_on 60 64 0; note_off 60 64 (-480)].
Proof. split; vm_compute; reflexivity. Qed.

(** *** What a compile can raise *)

Lemma resolve_notes_raises (notes : list str) (midi_notes : list Z) (e : exn) :
  resolve_notes notes midi_notes = Raise e ->
  e = KeyError (pystr "R") ∧ Exists rest_misspelt notes.
Proof.
  revert midi_notes. induction notes as [|n notes IH]; intros acc; simpl;
    [discriminate|].
  destruct (note_to_midi_cases n)
    as [E | [[key E] | [[msg E] | (Hne & Hr & E)]]]; rewrite E.
  - intros H. destruct (IH _ H). auto using Exists_cons_tl.
  - intros H. destruct (IH _ H). auto using Exists_cons_tl.
  - intros H. destruct (IH _ H). auto using Exists_cons_tl.
  - intros [= <-]. split; [reflexivity|]. apply Exists_cons_hd. split; assumption.
Qed.

Lemma int_of_float_raises (x : Py.float) (e : exn) :
  Py.int_of_float x = Raise e ->
  is_finite x = false ∧
  (e = OverflowError (pystr "cannot convert float infinity to integer") ∨
   e = ValueError (pystr "cannot convert float NaN to integer")).
Proof.
  destruct x; simpl; try discriminate; intros [= <-]; auto.
Qed.

Lemma resolve_notes_Ok (notes : list str) (keys : list Z) :
  resolve_notes notes [] = Ok keys ->
  Forall (fun n => ¬ rest_misspelt n) notes ∧ keys = omap key_of notes.
Proof.
  intros H.
  destruct (decide (Exists rest_misspelt notes)) as [Hex | Hex].
  - rewrite (resolve_notes_abort _ _ Hex) in H. discriminate.
  - assert (Hall : Forall (fun n => ¬ rest_misspelt n) notes).
    { apply Forall_forall. intros n Hin Hn. apply Hex, Exists_exists. eauto. }
    split; [exact Hall|]. rewrite (resolve_notes_omap _ Hall) in H. congruence.
Qed.

Lemma forallb_no_rest_misspelt (notes : list str) :
  Forall (fun n => ¬ rest_misspelt n) notes ->
  forallb (fun n => negb (bool_decide (rest_misspelt n))) notes = true.
Proof.
  intros H. apply forallb_forall. intros n Hin.
  rewrite Forall_forall in H. apply list_elem_of_In, H in Hin.
  apply negb_true_iff, bool_decide_eq_false_2, Hin.
Qed.

(** The exceptions of one line at the resolution of a new file. *)
Lemma line_events_raises (line : str) (e : exn) :
  line_events DEFAULT_TICKS_PER_BEAT line = Raise e ->
  line_clean line = false ∧
  ((∃ msg, e = ValueError msg) ∨
   e = OverflowError (pystr "cannot convert float infinity to integer") ∨
   e = KeyError (pystr "R")).
Proof.
  rewrite line_events_fields. unfold line_clean.
  destruct (Py.split _) as [|notes_part [|duration_str rest]]; try discriminate.
  destruct (Py.float_of_str duration_str) as [duration|e'] eqn:Hd.
  - cbv zeta. destruct (velocity_of rest) as [velocity|e'] eqn:Hv.
    + rewrite bind_Ok. unfold duration_ticks.
      change (Py.float_of_int DEFAULT_TICKS_PER_BEAT)
        with (Ok (A := Py.float) (Py.round_to_float DEFAULT_TICKS_PER_BEAT 0)).
      rewrite bind_Ok.
      destruct (Py.int_of_float _) as [ticks|e'] eqn:Ht.
      * rewrite bind_Ok.
        destruct (resolve_notes _ _) as [keys|e'] eqn:Hk.
        -- rewrite bind_Ok, chord_events_checked.
           apply resolve_notes_Ok in Hk as [_ ->].
           destruct (chord_ok _ _); [discriminate|].
           intros [= <-]. split; [reflexivity | eauto].
        -- rewrite bind_Raise. intros [= <-].
           apply resolve_notes_raises in Hk as [-> Hex]. split; [|auto].
           apply andb_false_intro2.
           apply Exists_exists in Hex as (n & Hin & Hn).
           destruct (forallb _ _) eqn:Hall; [|reflexivity].
           rewrite forallb_forall in Hall. apply list_elem_of_In, Hall in Hin.
           apply negb_true_iff, bool_decide_eq_false_1 in Hin. contradiction.
      * rewrite bind_Raise. intros [= <-].
        apply int_of_float_raises in Ht as [-> Ht]. split.
        -- rewrite andb_false_r. reflexivity.
        -- destruct Ht as [-> | ->]; eauto.
    + rewrite bind_Raise. intros [= <-]. split; [reflexivity|].
      unfold velocity_of in Hv. destruct rest; [discriminate|].
      apply int_of_str_raises in Hv. auto.
  - apply float_of_str_raises in Hd as [msg ->]. discriminate.
Qed.

Lemma compile_lines_raises (tpb : Z) (lines : list str) (track : MidiTrack) (e : exn) :
  compile_lines tpb lines track = Raise e ->
  ∃ line, line ∈ lines ∧ line_events tpb line = Raise e.
Proof.
  revert track. induction lines as [|l lines IH]; intros track; simpl;
    [discriminate|].
  destruct (line_events tpb l) as [events|e'] eqn:Hl.
  - rewrite bind_Ok. intros H. destruct (IH _ H) as (line & Hin & Hr).
    exists line. split; [apply list_elem_of_further, Hin | exact Hr].
  - rewrite bind_Raise. intros [= <-]. exists l. split; [constructor | exact Hl].
Qed.

(** X16: for a tempo that is not zero and converts to a float, a compile
    raises nothing but a [ValueError] (a velocity that is no integer, a
    duration that is NaN, a key or a velocity that is no data byte), the
    [OverflowError] of an infinite tick product, or [KeyError('R')]. *)
Theorem compile_exceptions (text : str) (bpm : Z) (e : exn) :
  tempo_in_range bpm ->
  parse_text_to_midi text bpm = Raise e ->
  (∃ msg, e = ValueError msg) ∨
  e = OverflowError (pystr "cannot convert float infinity to integer") ∨
  e = KeyError (pystr "R").
Proof.
  intros [Hbpm _]. rewrite (parse_text_to_midi_nonzero text bpm Hbpm).
  destruct (compile_lines _ _ _) as [track|e'] eqn:Hc; [discriminate|].
  rewrite bind_Raise. intros [= <-].
  apply compile_lines_raises in Hc as (line & _ & Hl).
  apply line_events_raises in Hl as [_ Hl]. exact Hl.
Qed.

Lemma compile_exceptions_witness :
  (∃ msg, OverflowError (pystr "cannot convert float infinity to integer") = ValueError msg) ∨
  OverflowError (pystr "cannot convert float infinity to integer") =
    OverflowError (pystr "cannot convert float infinity to integer") ∨
  OverflowError (pystr "cannot convert float infinity to integer") = KeyError (pystr "R").
Proof.
  apply (compile_exceptions (pystr "C4 1e308") 90).
  - split; [discriminate | vm_compute; reflexivity].
  - vm_compute. reflexivity.
Defined.

Lemma compile_exceptions_examples :
  parse_text_to_midi (pystr "C4 1.0 200") 90 =
    Raise (ValueError (pystr "data byte must be in range 0..127")) ∧
  parse_text_to_midi (pystr "C4 1.0 -1") 90 =
    Raise (ValueError (pystr "data byte must be in range 0..127")) ∧
  parse_text_to_midi (pystr "G#9 1.0") 90 =
    Raise (ValueError (pystr "data byte must be in range 0..127")) ∧
  parse_text_to_midi (pystr "C4 nan") 90 =
    Raise (ValueError (pystr "cannot convert float NaN to integer")) ∧
  parse_text_to_midi (pystr "r 1.0") 90 = Raise (KeyError (pystr "R")).
Proof. repeat split; vm_compute; reflexivity. Qed.

(** A line that gives its events is clean. *)
Lemma line_events_clean (line : str) (events : list Message) :
  line_events DEFAULT_TICKS_PER_BEAT line = Ok events -> line_clean line = true.
Proof.
  rewrite line_events_fields. unfold line_clean.
  destruct (Py.split _) as [|notes_part [|duration_str rest]];
    try (intros _; reflexivity).
  destruct (Py.float_of_str duration_str) as [duration|e']; [|intros _; reflexivity].
  cbv zeta.
  destruct (velocity_of rest) as [velocity|e']; [|discriminate].
  rewrite bind_Ok. unfold duration_ticks.
  change (Py.float_of_int DEFAULT_TICKS_PER_BEAT)
    with (Ok (A := Py.float) (Py.round_to_float DEFAULT_TICKS_PER_BEAT 0)).
  rewrite bind_Ok.
  destruct (Py.int_of_float _) as [ticks|e'] eqn:Ht; [|discriminate].
  rewrite bind_Ok.
  destruct (resolve_notes _ _) as [keys|e'] eqn:Hk; [|discriminate].
  rewrite bind_Ok. intros Hc. apply chord_events_Ok in Hc as [Hok _].
  apply resolve_notes_Ok in Hk as [Hall ->].
  rewrite Hok, (forallb_no_rest_misspelt _ Hall), andb_true_r. cbn [andb].
  destruct (Py.float_mul _ _); simpl in *; try reflexivity; discriminate.
Qed.

Lemma compile_lines_clean (lines : list str) (track track' : MidiTrack) :
  compile_lines DEFAULT_TICKS_PER_BEAT lines track = Ok track' ->
  forallb line_clean lines = true.
Proof.
  intros Hc. apply compile_lines_Forall2 in Hc as (events & Hev & _).
  induction Hev as [|l evs lines events Hl _ IH]; [reflexivity|].
  cbn [forallb]. rewrite (line_events_clean _ _ Hl), IH. reflexivity.
Qed.

Lemma clean_compile_lines (lines : list str) (track : MidiTrack) :
  forallb line_clean lines = true ->
  ∃ track', compile_lines DEFAULT_TICKS_PER_BEAT lines track = Ok track'.
Proof.
  intros Hclean.
  destruct (compile_lines_total DEFAULT_TICKS_PER_BEAT lines track) as [events ->];
    [|eauto].
  apply Forall_forall. intros l Hl. apply line_clean_events.
  rewrite forallb_forall in Hclean. apply Hclean, list_elem_of_In, Hl.
Qed.

(** X17: for a tempo that is not zero and converts to a float, a compile
    returns a stream exactly when every line is clean: skipped, or with a
    velocity field, if any, that is an integer literal, a finite tick
    product, no rest spelled otherwise than [R], and, when its chord has a
    key, keys and a velocity from 0 to 127. *)
Theorem compile_returns_iff_clean (text : str) (bpm : Z) :
  tempo_in_range bpm ->
  (∃ midi, parse_text_to_midi text bpm = Ok midi) <->
  forallb line_clean (Py.splitlines (Py.strip text)) = true.
Proof.
  intros [Hbpm _]. rewrite (parse_text_to_midi_nonzero text bpm Hbpm). split.
  - intros [midi H].
    destruct (compile_lines _ _ _) as [track|] eqn:Hc; [|discriminate].
    eapply compile_lines_clean, Hc.
  - intros Hclean.
    destruct (clean_compile_lines _ [program_change 0 0] Hclean) as [track ->].
    rewrite bind_Ok. eauto.
Qed.

Lemma compile_returns_iff_clean_witness :
  (∃ midi, parse_text_to_midi (pystr "C4 1.0 200") 90 = Ok midi) <->
  forallb line_clean (Py.splitlines (Py.strip (pystr "C4 1.0 200"))) = true.
Proof.
  apply compile_returns_iff_clean. split; [discriminate | vm_compute; reflexivity].
Defined.

Lemma line_clean_examples :
  line_clean (pystr "C4 1.0 127") = true ∧
  line_clean (pystr "C4 1.0 200") = false ∧
  line_clean (pystr "C4 1.0 -1") = false ∧
  line_clean (pystr "G#9 1.0") = false ∧
  line_clean (pystr "G9 1.0") = true ∧
  line_clean (pystr "R 1.0 200") = true ∧
  line_clean (pystr "H4 1.0 200") = true ∧
  line_clean (pystr "C4 1.0 loud") = false ∧
  line_clean (pystr "C4 inf") = false ∧
  line_clean (pystr "rest 1.0") = false ∧
  line_clean (pystr "C4 fast loud") = true.
Proof. repeat split; vm_compute; reflexivity. Qed.

(** ** The export of the window *)

(** X18: what the export does is the same for every content of the tempo
    field that gives a tempo other than zero that converts to a float, a
    content that is no integer, for which the tempo is 90, included. *)
Theorem export_ignores_tempo_field (text bpm_text1 bpm_text2 filename : str) :
  tempo_in_range (tempo_of_field bpm_text1) ->
  tempo_in_range (tempo_of_field bpm_text2) ->
  export_midi text bpm_text1 filename = export_midi text bpm_text2 filename.
Proof.
  intros [H1 _] [H2 _]. unfold export_midi. cbv zeta.
  rewrite !parse_text_to_midi_nonzero by assumption.
  reflexivity.
Qed.

Lemma export_ignores_tempo_field_witness :
  export_midi (pystr "C4 1.0") (pystr "240") (pystr "out.mid") =
    export_midi (pystr "C4 1.0") (pystr "fast") (pystr "out.mid").
Proof.
  apply export_ignores_tempo_field;
    (split; [vm_compute; discriminate | vm_compute; reflexivity]).
Defined.

(** [int] of the text of the tempo field trims the whitespace of C only:
    a separator character beside the digits makes [int] raise. *)
Lemma tempo_of_field_examples :
  tempo_of_field (pystr " 120 ") = 120 ∧
  tempo_of_field (pystr "1_20") = 120 ∧
  tempo_of_field ("028"%char :: pystr "120") = 90 ∧
  tempo_of_field (pystr "120" ++ ["031"%char]) = 90 ∧
  tempo_of_field (pystr "12.5") = 90 ∧
  tempo_of_field (pystr "") = 90 ∧
  tempo_of_field (pystr "0") = 0.
Proof. repeat split; vm_compute; reflexivity. Qed.

(** X19: with a tempo field that gives a tempo other than zero that
    converts to a float, the export shows the warning, and opens no save
    dialog, exactly when some line of the text is not clean. *)
Theorem export_warns_iff_unclean (text bpm_text filename : str) :
  tempo_in_range (tempo_of_field bpm_text) ->
  (∃ message,
     export_midi text bpm_text filename = Warning (pystr "Error") message) <->
  forallb line_clean (Py.splitlines (Py.strip text)) = false.
Proof.
  intros [Hbpm _]. unfold export_midi. cbv zeta.
  rewrite (parse_text_to_midi_nonzero _ _ Hbpm).
  destruct (compile_lines _ _ _) as [track|e] eqn:Hc.
  - rewrite bind_Ok, (compile_lines_clean _ _ _ Hc). split; [|discriminate].
    intros [message H]. destruct (Py.nonempty filename); [|discriminate].
    destruct (times_writable _); discriminate.
  - rewrite bind_Raise. split; [|eauto].
    intros _. destruct (forallb line_clean _) eqn:Hclean; [|reflexivity].
    destruct (clean_compile_lines _ [program_change 0 0] Hclean) as [track Ht].
    congruence.
Qed.

Lemma export_warns_iff_unclean_witness :
  (∃ message,
     export_midi (pystr "C4 1.0 200") (pystr "90") (pystr "out.mid") =
       Warning (pystr "Error") message) <->
  forallb line_clean (Py.splitlines (Py.strip (pystr "C4 1.0 200"))) = false.
Proof.
  apply export_warns_iff_unclean.
  split; [vm_compute; discriminate | vm_compute; reflexivity].
Defined.

Lemma export_examples :
  export_midi (pystr "rest 1.0") (pystr "90") (pystr "out.mid") =
    Warning (pystr "Error") (pystr "Failed to parse input:" ++ "010"%char :: pystr "'R'") ∧
  export_midi (pystr "C4 1.0 loud") (pystr "") (pystr "out.mid") =
    Warning (pystr "Error")
      (pystr "Failed to parse input:" ++ "010"%char ::
       pystr "invalid literal for int() with base 10: 'loud'") ∧
  export_midi (pystr "C4 1.0 200") (pystr "90") (pystr "out.mid") =
    Warning (pystr "Error")
      (pystr "Failed to parse input:" ++ "010"%char ::
       pystr "data byte must be in range 0..127") ∧
  export_midi (pystr "C4 1.0") (pystr "abc") (pystr "") = NotSaved ∧
  export_midi (pystr "C4 1.0") (pystr "abc") (pystr "out.mid") =
    Saved (pystr "out.mid")
      (mkMidiFile 480 [[program_change 0 0; note_on 60 64 0; note_off 60 64 480]]) ∧
  export_midi (pystr "C4 -1.0") (pystr "90") (pystr "out.mid") =
    SaveRaised (pystr "out.mid").
Proof. repeat split; vm_compute; reflexivity. Qed.

(** ** Lines that are skipped *)

(** X20: a line that is blank, has fewer than two fields, or whose second
    field is no float leaves no trace: with it or without it the lines give
    the same track or the same exception. *)
Theorem skipped_line_leaves_no_trace
    (tpb : Z) (pre : list str) (line : str) (post : list str) (track : MidiTrack) :
  (length (Py.split (Py.strip line)) < 2)%nat ∨
  (∃ notes_part duration_str rest e,
     Py.split (Py.strip line) = notes_part :: duration_str :: rest ∧
     Py.float_of_str duration_str = Raise e) ->
  compile_lines tpb (pre ++ line :: post) track = compile_lines tpb (pre ++ post) track.
Proof.
  intros Hskip.
  assert (Hl : line_events tpb line = Ok []).
  { destruct Hskip as [Hshort | (np & ds & rest & e & Hs & Hd)].
    - apply short_line_skipped, Hshort.
    - eapply bad_duration_skipped; eassumption. }
  revert track. induction pre as [|l pre IH]; intros track; simpl.
  - rewrite Hl, bind_Ok, app_nil_r. reflexivity.
  - destruct (line_events tpb l) as [events|e]; [|reflexivity].
    rewrite !bind_Ok. apply IH.
Qed.

Lemma skipped_line_leaves_no_trace_witness :
  compile_lines 480 ([pystr "C4 1.0"] ++ pystr "E4 soon" :: [pystr "G4 1.0"]) [] =
    compile_lines 480 ([pystr "C4 1.0"] ++ [pystr "G4 1.0"]) [].
Proof.
  apply skipped_line_leaves_no_trace. right.
  exists (pystr "E4"), (pystr "soon"), [].
  eexists. split; vm_compute; reflexivity.
Defined.
